(** * Navigation evaluation analysis: model classifier and aggregation passes

    A shallow embedding of [python-analysis/navigation_eval_analysis.py].

    - Python [str] values are [string]s; model names are ASCII, and
      [str.lower] is the ASCII lower-casing.
    - JSON numbers are binary64 floats ([float], the kernel's primitive
      floats), with the IEEE operations Python and pandas use.
    - A Metrics Record (a JSON object only read by key) is a
      [gmap string float]; the per-dataset dictionary, whose insertion
      order decides the row order of the table, is an association list.
    - The table [df] is the list of its rows, labelled 0, 1, 2, ...
    - Statements that can raise ([d[k]] on a missing key, a column of a
      table without rows, [idxmax] on a group without a number) live in
      an error monad. *)

From Stdlib Require Import ZArith String Ascii List Bool Floats.
From stdpp Require Import gmap strings list sorting.

Set Warnings "-inexact-float".
Local Open Scope string_scope.

(** ** Python string primitives *)

Module Str.

(** [c.lower()] for one ASCII character. *)
Definition lower_char (c : ascii) : ascii :=
  let n := N_of_ascii c in
  if ((65 <=? n) && (n <=? 90))%N then ascii_of_N (n + 32) else c.

(** [s.lower()] *)
Fixpoint lower (s : string) : string :=
  match s with
  | EmptyString => EmptyString
  | String c s' => String (lower_char c) (lower s')
  end.

(** [s.startswith(p)] *)
Definition startswith (s p : string) : bool := String.prefix p s.

(** [sub in s] *)
Fixpoint contains (sub s : string) : bool :=
  String.prefix sub s
  || match s with
     | EmptyString => false
     | String _ s' => contains sub s'
     end.

(** [s.replace(old, '')]: every occurrence of [old], found scanning
    from the left and never overlapping the previous one, is dropped.
    [skip] counts the characters of the current occurrence still to drop. *)
Fixpoint remove_aux (old : string) (skip : nat) (s : string) : string :=
  match s with
  | EmptyString => EmptyString
  | String c s' =>
      match skip with
      | S k => remove_aux old k s'
      | O =>
          if String.prefix old s
          then remove_aux old (String.length old - 1) s'
          else String c (remove_aux old 0 s')
      end
  end.

Definition remove (old s : string) : string :=
  match old with
  | EmptyString => s
  | _ => remove_aux old 0 s
  end.

(** The relations the boolean tests decide. *)
Definition Prefix (p s : string) : Prop := exists post, s = p ++ post.
Definition Substring (sub s : string) : Prop :=
  exists pre post, s = pre ++ sub ++ post.

End Str.

(** ** The classifier *)

(** Python's [any] over a list of booleans. *)
Definition any (l : list bool) : bool := existsb (fun b => b) l.

Definition categorize_model (model_name : string) : string * string * bool :=
  let model_name := Str.lower model_name in
  (* Determine if thinking model *)
  let is_thinking :=
    any [ Str.contains "--thinking" model_name
        ; Str.startswith model_name "o3" || Str.startswith model_name "o4"
        ; Str.contains "deepseek-r1" model_name
        ; Str.contains "grok" model_name
        ; Str.contains "gemini" model_name ] in
  (* Determine family *)
  let family :=
    if Str.contains "o3" model_name || Str.contains "o4" model_name then "o-series"
    else if Str.contains "gpt" model_name then "gpt"
    else if Str.contains "claude" model_name then "claude"
    else if Str.contains "grok" model_name then "grok"
    else if Str.contains "deepseek" model_name then "deepseek"
    else if Str.contains "gemini" model_name then "gemini"
    else if Str.contains "llama" model_name then "llama"
    else if Str.contains "kimi" model_name then "kimi"
    else "other" in
  (* Determine company *)
  let company :=
    if any (map (fun x => Str.contains x model_name) ["gpt"; "o3"; "o4"]) then "openai"
    else if Str.contains "claude" model_name then "anthropic"
    else if Str.contains "gemini" model_name then "google"
    else if Str.contains "grok" model_name then "x-ai"
    else if Str.contains "deepseek" model_name then "deepseek"
    else if Str.contains "kimi" model_name then "moonshot"
    else if Str.contains "llama" model_name then "meta"
    else "other" in
  (family, company, is_thinking).

(** The keywords the three decisions look for. *)
Definition thinking_markers : list string :=
  ["--thinking"; "o3"; "o4"; "deepseek-r1"; "grok"; "gemini"].
Definition family_keywords : list string :=
  ["o3"; "o4"; "gpt"; "claude"; "grok"; "deepseek"; "gemini"; "llama"; "kimi"].
Definition company_keywords : list string :=
  ["gpt"; "o3"; "o4"; "claude"; "gemini"; "grok"; "deepseek"; "kimi"; "llama"].

Definition families : list string :=
  ["o-series"; "gpt"; "claude"; "grok"; "deepseek"; "gemini"; "llama"; "kimi"; "other"].
Definition companies : list string :=
  ["openai"; "anthropic"; "google"; "x-ai"; "deepseek"; "moonshot"; "meta"; "other"].

(** ** Exceptions *)

Inductive pyerr : Type :=
| KeyError (key : string)
| ValueError (msg : string)
| ZeroDivisionError.

Inductive result (A : Type) : Type :=
| Ok (a : A)
| Raise (e : pyerr).
Arguments Ok {A} a.
Arguments Raise {A} e.

#[global] Instance result_ret : MRet result := fun _ a => Ok a.
#[global] Instance result_bind : MBind result := fun _ _ f m =>
  match m with
  | Ok a => f a
  | Raise e => Raise e
  end.

(** A [for] loop whose body can raise, collecting one value per item. *)
Fixpoint for_each {A B : Type} (body : A -> result B) (l : list A) : result (list B) :=
  match l with
  | [] => Ok []
  | a :: l' => b ← body a; bs ← for_each body l'; Ok (b :: bs)
  end.

(** A [for] loop that threads the state it mutates. *)
Fixpoint for_state {A S : Type} (body : A -> S -> result S) (l : list A) (s : S) : result S :=
  match l with
  | [] => Ok s
  | a :: l' => s' ← body a s; for_state body l' s'
  end.

(** ** Dictionaries *)

(** A Python [dict] whose iteration order is observed: the items in
    insertion order. *)
Abbreviation pydict V := (list (string * V)).

Fixpoint dict_get {V : Type} (k : string) (d : pydict V) : option V :=
  match d with
  | [] => None
  | (k', v) :: d' => if String.eqb k k' then Some v else dict_get k d'
  end.

(** [d[k] = v]: an existing key keeps its place, a new one goes last. *)
Fixpoint dict_set {V : Type} (k : string) (v : V) (d : pydict V) : pydict V :=
  match d with
  | [] => [(k, v)]
  | (k', v') :: d' =>
      if String.eqb k k' then (k, v) :: d' else (k', v') :: dict_set k v d'
  end.

(** [d.update(other)] *)
Definition dict_update {V : Type} (d other : pydict V) : pydict V :=
  fold_left (fun acc kv => dict_set kv.1 kv.2 acc) other d.

(** [d[k]] on a JSON object, raising [KeyError] on a missing key. *)
Definition getitem {V : Type} (d : gmap string V) (k : string) : result V :=
  match d !! k with
  | Some v => Ok v
  | None => Raise (KeyError k)
  end.

(** ** The data *)

(** A Metrics Record as the script builds it in [thinking_results]. *)
Definition metrics (totalSamples exactlyCorrect mostlyCorrect
                    exactAccuracy mostlyAccuracy totalAccuracy : float)
  : gmap string float :=
  {[ "totalSamples" := totalSamples; "exactlyCorrect" := exactlyCorrect;
     "mostlyCorrect" := mostlyCorrect; "exactAccuracy" := exactAccuracy;
     "mostlyAccuracy" := mostlyAccuracy; "totalAccuracy" := totalAccuracy ]}.

Definition thinking_sf : pydict (gmap string float) :=
  [ ("claude-3-7-sonnet-20250219--thinking", metrics 26 2 2 0.077 0.077 0.154);
    ("claude-opus-4-20250514--thinking", metrics 50 8 3 0.16 0.06 0.22);
    ("claude-sonnet-4-20250514--thinking", metrics 50 4 4 0.08 0.08 0.16) ].

Definition thinking_ca : pydict (gmap string float) :=
  [ ("claude-3-7-sonnet-20250219--thinking", metrics 50 19 0 0.38 0.0 0.38);
    ("claude-opus-4-20250514--thinking", metrics 50 26 1 0.52 0.02 0.54);
    ("claude-sonnet-4-20250514--thinking", metrics 50 21 0 0.42 0.0 0.42) ].

Definition thinking_results : gmap string (pydict (gmap string float)) :=
  {[ "sf" := thinking_sf; "ca" := thinking_ca ]}.

Definition datasets : list string := ["sf"; "ca"].

(** Merge thinking results into main data:
    [eval_data[dataset].update(thinking_results[dataset])]. *)
Definition merge_dataset (dataset : string)
    (eval_data : gmap string (pydict (gmap string float)))
  : result (gmap string (pydict (gmap string float))) :=
  d ← getitem eval_data dataset;
  t ← getitem thinking_results dataset;
  Ok (<[dataset := dict_update d t]> eval_data).

Definition merge (eval_data : gmap string (pydict (gmap string float)))
  : result (gmap string (pydict (gmap string float))) :=
  for_state merge_dataset datasets eval_data.

(** ** The flattened table *)

Module Row.
Record t : Type := mk {
  model : string;
  dataset : string;
  family : string;
  company : string;
  is_thinking : bool;
  exact_accuracy : float;
  mostly_accuracy : float;
  total_accuracy : float;
  total_samples : float
}.
End Row.

(** [data.get('totalAccuracy', data['exactAccuracy'] + data['mostlyAccuracy'])]:
    the default is an argument, so both lookups run before [get]. *)
Definition get_total_accuracy (data : gmap string float) : result float :=
  e ← getitem data "exactAccuracy";
  m ← getitem data "mostlyAccuracy";
  Ok (default (e + m)%float (data !! "totalAccuracy")).

Definition result_row (dataset : string) (item : string * gmap string float)
  : result Row.t :=
  let '(model, data) := item in
  let '(family, company, is_thinking) := categorize_model model in
  exact_accuracy ← getitem data "exactAccuracy";
  mostly_accuracy ← getitem data "mostlyAccuracy";
  total_accuracy ← get_total_accuracy data;
  total_samples ← getitem data "totalSamples";
  Ok (Row.mk model dataset family company is_thinking
             exact_accuracy mostly_accuracy total_accuracy total_samples).

(** The rows one dataset contributes, in [items()] order. *)
Definition dataset_rows {R : Type}
    (body : string -> string * gmap string float -> result R)
    (eval_data : gmap string (pydict (gmap string float))) (dataset : string)
  : result (list R) :=
  d ← getitem eval_data dataset;
  for_each (body dataset) d.

(** [results], then [df = pd.DataFrame(results)]: row [i] has index [i]. *)
Definition results (eval_data : gmap string (pydict (gmap string float)))
  : result (list Row.t) :=
  rows ← for_each (dataset_rows result_row eval_data) datasets;
  Ok (concat rows).

(** [df[name]]: a DataFrame built from an empty list of rows has no
    columns, and selecting one raises KeyError. *)
Definition column (df : list Row.t) (name : string) : result unit :=
  match df with
  | [] => Raise (KeyError name)
  | _ :: _ => Ok tt
  end.

(** ** Group-best *)

(** The order [groupby] lists its groups in: by the key tuple
    [(dataset, key)], strings compared character by character. *)
Definition key_le (a b : string * string) : Prop :=
  Is_true (if String.eqb a.1 b.1 then String.leb a.2 b.2 else String.leb a.1 b.1).

#[global] Instance key_le_dec a b : Decision (key_le a b) := _.

Definition group_keys (key : Row.t -> string) (df : list Row.t) : list (string * string) :=
  merge_sort key_le (remove_dups (map (fun r => (Row.dataset r, key r)) df)).

Definition in_group (key : Row.t -> string) (k : string * string) (r : Row.t) : bool :=
  String.eqb (Row.dataset r) k.1 && String.eqb (key r) k.2.

(** The index labels and values of one group, in table order; [n] is the
    label of the first row of [df] (the table is labelled 0, 1, 2, ...). *)
Fixpoint group_values_from (n : nat) (key : Row.t -> string) (df : list Row.t)
    (k : string * string) : list (nat * float) :=
  match df with
  | [] => []
  | r :: df' =>
      if in_group key k r
      then (n, Row.total_accuracy r) :: group_values_from (S n) key df' k
      else group_values_from (S n) key df' k
  end.

Definition group_values (key : Row.t -> string) (df : list Row.t) (k : string * string)
  : list (nat * float) :=
  group_values_from 0 key df k.

(** [idxmax] with [skipna]: the label of the first occurrence of the
    largest value, missing values (NaN) passed over. [best] is the
    candidate so far. *)
Fixpoint idxmax_from (best : option (nat * float)) (l : list (nat * float)) : option nat :=
  match l with
  | [] => fst <$> best
  | (i, x) :: l' =>
      if is_nan x then idxmax_from best l'
      else match best with
           | None => idxmax_from (Some (i, x)) l'
           | Some (_, b) =>
               if (b <? x)%float then idxmax_from (Some (i, x)) l'
               else idxmax_from best l'
           end
  end.

Definition idxmax (l : list (nat * float)) : option nat := idxmax_from None l.

(** [df.loc[i]] *)
Definition loc (df : list Row.t) (i : nat) : result Row.t :=
  match df !! i with
  | Some r => Ok r
  | None => Raise (KeyError "index")
  end.

(** [df.loc[df.groupby(['dataset', key])['total_accuracy'].idxmax()]
      .reset_index(drop=True)].
    A group with no number in it has no [idxmax]; pandas then stops the
    script (in [idxmax] or in [loc], by version). *)
Definition group_best (key : Row.t -> string) (df : list Row.t) : result (list Row.t) :=
  _ ← column df "dataset";
  for_each
    (fun k =>
       match idxmax (group_values key df k) with
       | Some i => loc df i
       | None => Raise (ValueError "idxmax of an all-NA group")
       end)
    (group_keys key df).

Definition family_best (df : list Row.t) : result (list Row.t) :=
  group_best Row.family df.

Definition company_best (df : list Row.t) : result (list Row.t) :=
  group_best Row.company df.

(** ** Thinking improvement *)

Module Imp.
Record t : Type := mk {
  dataset : string;
  base_model : string;
  base_accuracy : float;
  thinking_accuracy : float;
  improvement : float;
  relative_improvement : float
}.
End Imp.

(** [a / b]. A zero divisor is the event Python reports as
    [ZeroDivisionError] (numpy's scalars report it as a warning and
    go on with an infinity or NaN); here it is the error. *)
Definition divide (a b : float) : result float :=
  if (b =? 0)%float then Raise ZeroDivisionError else Ok (a / b)%float.

(** [improvement / base_acc if base_acc > 0 else 0] *)
Definition relative (improvement base_acc : float) : result float :=
  if (0 <? base_acc)%float then divide improvement base_acc else Ok 0%float.

(** [df[(df['dataset'] == dataset) & (df['model'] == m)]] *)
Definition select (df : list Row.t) (dataset m : string) : list Row.t :=
  filter (fun r => Is_true (String.eqb (Row.dataset r) dataset && String.eqb (Row.model r) m)) df.

(** [set(df[df['dataset'] == dataset]['model'].str.replace('--thinking', ''))].
    Python leaves the iteration order of a set open; the model lists each
    name once, in table order. *)
Definition models_in_dataset (df : list Row.t) (dataset : string) : list string :=
  remove_dups
    (map (fun r => Str.remove "--thinking" (Row.model r))
         (filter (fun r => Is_true (String.eqb (Row.dataset r) dataset)) df)).

(** The body of the inner loop: the rows (none or one) appended for
    [base_model]. *)
Definition improvement_of (df : list Row.t) (dataset base_model : string)
  : result (list Imp.t) :=
  let thinking_version := base_model ++ "--thinking" in
  let base_data := select df dataset base_model in
  let thinking_data := select df dataset thinking_version in
  match base_data, thinking_data with
  | b :: _, t :: _ =>
      let base_acc := Row.total_accuracy b in
      let thinking_acc := Row.total_accuracy t in
      let improvement := (thinking_acc - base_acc)%float in
      rel ← relative improvement base_acc;
      Ok [Imp.mk dataset base_model base_acc thinking_acc improvement rel]
  | _, _ => Ok []
  end.

Definition thinking_improvements (df : list Row.t) : result (list Imp.t) :=
  _ ← column df "dataset";
  per_dataset ←
    for_each
      (fun dataset =>
         rows ← for_each (improvement_of df dataset) (models_in_dataset df dataset);
         Ok (concat rows))
      datasets;
  Ok (concat per_dataset).

(** ** Token efficiency *)

Module Tok.
Record t : Type := mk {
  model : string;
  dataset : string;
  family : string;
  is_thinking : bool;
  avg_tokens : float;
  total_accuracy : float
}.
End Tok.

(** ['avgOutputTokens' in data] *)
Definition has_tokens (data : gmap string float) : bool :=
  bool_decide (is_Some (data !! "avgOutputTokens")).

(** The body of the token loop: the rows (none or one) appended for an item. *)
Definition token_row (dataset : string) (item : string * gmap string float)
  : result (list Tok.t) :=
  let '(model, data) := item in
  if has_tokens data then
    let '(family, company, is_thinking) := categorize_model model in
    avg_tokens ← getitem data "avgOutputTokens";
    total_accuracy ← get_total_accuracy data;
    Ok [Tok.mk model dataset family is_thinking avg_tokens total_accuracy]
  else Ok [].

Definition token_data (eval_data : gmap string (pydict (gmap string float)))
  : result (list Tok.t) :=
  rows ← for_each (dataset_rows token_row eval_data) datasets;
  Ok (concat (concat rows)).

(** [token_df['total_accuracy'] / token_df['avg_tokens'] * 1000],
    element by element (a column division reports nothing on a zero). *)
Definition efficiency (r : Tok.t) : float :=
  (Tok.total_accuracy r / Tok.avg_tokens r * 1000)%float.

(** ** The script, top to bottom *)

Module Report.
Record t : Type := mk {
  df : list Row.t;
  family_best : list Row.t;
  thinking_improvements : list Imp.t;
  company_best : list Row.t;
  token_df : list (Tok.t * float)
}.
End Report.

Definition analysis (loaded : gmap string (pydict (gmap string float)))
  : result Report.t :=
  eval_data ← merge loaded;
  df ← results eval_data;
  fb ← family_best df;
  ti ← thinking_improvements df;
  cb ← company_best df;
  td ← token_data eval_data;
  Ok (Report.mk df fb ti cb (map (fun r => (r, efficiency r)) td)).

(** ** SF vs CA dataset comparison *)

(** The exceptions of this cell: those above, and the two of an
    out-of-bounds [iloc] and of an unbound name. *)
Inductive exc : Type :=
| Builtin (e : pyerr)
| IndexError
| NameError (name : string).

Inductive outcome (A : Type) : Type :=
| Done (a : A)
| Stop (e : exc).
Arguments Done {A} a.
Arguments Stop {A} e.

#[global] Instance outcome_ret : MRet outcome := fun _ a => Done a.
#[global] Instance outcome_bind : MBind outcome := fun _ _ f m =>
  match m with
  | Done a => f a
  | Stop e => Stop e
  end.

Definition lift {A : Type} (m : result A) : outcome A :=
  match m with
  | Ok a => Done a
  | Raise e => Stop (Builtin e)
  end.

Fixpoint for_models {A B : Type} (body : A -> outcome B) (l : list A) : outcome (list B) :=
  match l with
  | [] => Done []
  | a :: l' => b ← body a; bs ← for_models body l'; Done (b :: bs)
  end.

Module Cmp.
Record t : Type := mk {
  model : string;
  sf_exact : float;
  ca_exact : float;
  sf_total : float;
  ca_total : float;
  exact_diff : float;
  total_diff : float
}.
End Cmp.

(** [set(df[df['dataset'] == dataset]['model'])], each name once, in
    table order (the order of a Python set is left open). *)
Definition dataset_models (df : list Row.t) (dataset : string) : list string :=
  remove_dups
    (map Row.model (filter (fun r => Is_true (String.eqb (Row.dataset r) dataset)) df)).

(** [sf_models.intersection(ca_models)] *)
Definition common_models (df : list Row.t) : list string :=
  filter (fun m => m ∈ dataset_models df "ca") (dataset_models df "sf").

(** [selection.iloc[0]] *)
Definition iloc0 (selection : list Row.t) : outcome Row.t :=
  match selection with
  | r :: _ => Done r
  | [] => Stop IndexError
  end.

(** The body of the loop over [common_models]. *)
Definition comparison_row (df : list Row.t) (model : string) : outcome Cmp.t :=
  sf_perf ← iloc0 (select df "sf" model);
  ca_perf ← iloc0 (select df "ca" model);
  Done (Cmp.mk model
          (Row.exact_accuracy sf_perf) (Row.exact_accuracy ca_perf)
          (Row.total_accuracy sf_perf) (Row.total_accuracy ca_perf)
          (Row.exact_accuracy ca_perf - Row.exact_accuracy sf_perf)
          (Row.total_accuracy ca_perf - Row.total_accuracy sf_perf)).

(** The cell down to its first use of [comparison_df] outside the
    [if common_models:] block that binds it: with no common model the
    name is unbound there. *)
Definition comparison (df : list Row.t) : outcome (list Cmp.t) :=
  _ ← lift (column df "dataset");
  match common_models df with
  | [] => Stop (NameError "comparison_df")
  | _ :: _ => for_models (comparison_row df) (common_models df)
  end.

(** ** Complexity and generation *)

Definition complexity_order : pydict Z :=
  [ ("haiku", 1); ("mini", 2); ("sonnet", 3); ("gpt-4", 4); ("opus", 5);
    ("turbo", 4); ("o3", 6); ("o4", 7); ("grok", 5); ("gemini", 4) ]%Z.

(** The loop of [get_complexity] over [items()], from [items] on. *)
Fixpoint complexity_from (items : pydict Z) (model_lower : string) : Z :=
  match items with
  | [] => 3 (* default *)
  | (key, value) :: items' =>
      if Str.contains key model_lower then value
      else complexity_from items' model_lower
  end.

Definition get_complexity (model_name : string) : Z :=
  let model_lower := Str.lower model_name in
  complexity_from complexity_order model_lower.

Definition get_generation (model_name : string) : string :=
  if Str.contains "2025" model_name || Str.contains "o3" model_name
     || Str.contains "o4" model_name || Str.contains "grok-4" model_name
  then "2025"
  else if Str.contains "2024" model_name then "2024"
  else "older".

(** ** An example input *)

(** A small loaded file, in the shape of eval-results.json: one record
    without a stored totalAccuracy, one without token data. *)
Definition example_loaded : gmap string (pydict (gmap string float)) :=
  {[ "sf" :=
       [ ("o4-mini", metrics 50 5 5 0.1 0.1 0.2);
         ("claude-opus-4-20250514",
          {[ "totalSamples" := 50%float; "exactAccuracy" := 0.125%float;
             "mostlyAccuracy" := 0.0625%float; "avgOutputTokens" := 250%float ]});
         ("gpt-4o", metrics 50 5 5 0.1 0.1 0.2) ];
     "ca" :=
       [ ("claude-opus-4-20250514", metrics 50 20 5 0.4 0.1 0.5);
         ("gemini-2_5-pro",
          {[ "totalSamples" := 50%float; "exactAccuracy" := 0.5%float;
             "mostlyAccuracy" := 0.25%float; "totalAccuracy" := 0.75%float;
             "avgOutputTokens" := 1500%float ]}) ] ]}.

(** A small table with a tie: the two gpt rows of sf are equally accurate. *)
Definition example_df : list Row.t :=
  [ Row.mk "gpt-4o" "sf" "gpt" "openai" false 0.125 0.125 0.25 50;
    Row.mk "o4-mini" "sf" "o-series" "openai" true 0.125 0.0 0.125 50;
    Row.mk "gpt-4-turbo" "sf" "gpt" "openai" false 0.25 0.0 0.25 50;
    Row.mk "gpt-3-5" "sf" "gpt" "openai" false 0.125 0.0 0.125 50;
    Row.mk "claude-opus-4-20250514" "ca" "claude" "anthropic" false 0.5 0.0 0.5 50;
    Row.mk "claude-opus-4-20250514--thinking" "ca" "claude" "anthropic" true 0.52 0.02 0.54 50 ].

(** A loaded file in which the plain claude-opus-4-20250514 does better
    on ca (0.6) than its thinking version does in the supplemental block. *)
Definition strong_base_loaded : gmap string (pydict (gmap string float)) :=
  {[ "sf" := [];
     "ca" := [ ("claude-opus-4-20250514", metrics 50 30 0 0.6 0.0 0.6) ] ]}.

(** A table with one model in both datasets. *)
Definition example_both : list Row.t :=
  [ Row.mk "gpt-4o" "sf" "gpt" "openai" false 0.125 0.125 0.25 50;
    Row.mk "gpt-4o" "ca" "gpt" "openai" false 0.5 0.125 0.625 50 ].

(** ** The specification's vocabulary *)

(** What it means for a lower-cased name to match none of the keyword
    tables of the classifier. *)
Definition no_keyword (s : string) : Prop :=
  Forall (fun k => ~ Str.Substring k s)
         (thinking_markers ++ family_keywords ++ company_keywords).

(** The total accuracy the specification asks for: the stored value when
    the record has one, else the sum of the two accuracies. *)
Definition stored_or_sum (data : gmap string float) (e m : float) : float :=
  match data !! "totalAccuracy" with
  | Some t => t
  | None => (e + m)%float
  end.

(** Two rows of the same group of a group-by on [(dataset, key)]. *)
Definition same_group (key : Row.t -> string) (r b : Row.t) : Prop :=
  Row.dataset r = Row.dataset b /\ key r = key b.

(** [b] is the group-best of its group: a row of the table, at least as
    accurate as every row of its group, and the first such row (the rows
    of the group above it are strictly less accurate). *)
Definition first_max (key : Row.t -> string) (df : list Row.t) (b : Row.t) : Prop :=
  exists df1 df2,
    df = (df1 ++ b :: df2)%list
    /\ (forall r, r ∈ df1 -> same_group key r b ->
        (Row.total_accuracy r <? Row.total_accuracy b)%float = true)
    /\ (forall r, r ∈ df2 -> same_group key r b ->
        (Row.total_accuracy r <=? Row.total_accuracy b)%float = true).

(** The same on a table that may hold NaN, the missing value, which
    [idxmax] passes over: [b] is a number, and it is compared with the
    numbers of its group only. *)
Definition first_number_max (key : Row.t -> string) (df : list Row.t) (b : Row.t) : Prop :=
  exists df1 df2,
    df = (df1 ++ b :: df2)%list
    /\ is_nan (Row.total_accuracy b) = false
    /\ (forall r, r ∈ df1 -> same_group key r b ->
        is_nan (Row.total_accuracy r) = false ->
        (Row.total_accuracy r <? Row.total_accuracy b)%float = true)
    /\ (forall r, r ∈ df2 -> same_group key r b ->
        is_nan (Row.total_accuracy r) = false ->
        (Row.total_accuracy r <=? Row.total_accuracy b)%float = true).

(** The accuracies of the table are numbers (no NaN, the missing value). *)
Definition numeric (df : list Row.t) : Prop :=
  Forall (fun r => is_nan (Row.total_accuracy r) = false) df.

(** A rounded value that kept the sign [s] and did not vanish. *)
Definition signed (s : bool) (x : spec_float) : Prop :=
  (exists m e, x = S754_finite s m e) \/ x = S754_infinity s.

(** The (family, company) pairs the two chains of tests can give. *)
Definition family_company_pairs : list (string * string) :=
  [ ("o-series", "openai"); ("gpt", "openai"); ("claude", "anthropic");
    ("grok", "x-ai"); ("grok", "google");
    ("deepseek", "deepseek"); ("deepseek", "google");
    ("gemini", "google");
    ("llama", "meta"); ("llama", "moonshot");
    ("kimi", "moonshot"); ("other", "other") ].

(** A record with the three fields every row of the table reads. *)
Definition complete_record (data : gmap string float) : Prop :=
  is_Some (data !! "exactAccuracy")
  /\ is_Some (data !! "mostlyAccuracy")
  /\ is_Some (data !! "totalSamples").

(** A complete record whose total accuracy is a number. *)
Definition valid_record (data : gmap string float) : Prop :=
  exists e m ts,
    data !! "exactAccuracy" = Some e
    /\ data !! "mostlyAccuracy" = Some m
    /\ data !! "totalSamples" = Some ts
    /\ is_nan (stored_or_sum data e m) = false.

(** A loaded file with both datasets and valid records only. *)
Definition well_formed (loaded : gmap string (pydict (gmap string float))) : Prop :=
  exists sf ca,
    loaded !! "sf" = Some sf /\ loaded !! "ca" = Some ca
    /\ Forall (fun item => valid_record item.2) (sf ++ ca)%list.

(** The fields the flattening loop reads from every record. *)
Definition row_fields : list string := ["exactAccuracy"; "mostlyAccuracy"; "totalSamples"].

(** A token row and a table row that describe the same record alike. *)
Definition agree (r : Row.t) (t : Tok.t) : Prop :=
  Row.model r = Tok.model t
  /\ Row.dataset r = Tok.dataset t
  /\ Row.family r = Tok.family t
  /\ Row.is_thinking r = Tok.is_thinking t
  /\ Row.total_accuracy r = Tok.total_accuracy t.

(** The rows (none or one) the loop body appends for [base_model]. *)
Definition improvement_rows (df : list Row.t) (dataset base_model : string) : list Imp.t :=
  match select df dataset base_model,
        select df dataset (base_model ++ "--thinking") with
  | b :: _, t :: _ =>
      [Imp.mk dataset base_model (Row.total_accuracy b) (Row.total_accuracy t)
              (Row.total_accuracy t - Row.total_accuracy b)%float
              (if (0 <? Row.total_accuracy b)%float
               then ((Row.total_accuracy t - Row.total_accuracy b) / Row.total_accuracy b)%float
               else 0%float)]
  | _, _ => []
  end.

(** The comparison row of [m]: built from the first sf row and the first
    ca row of the model. *)
Definition compares (df : list Row.t) (m : string) (r : Cmp.t) : Prop :=
  exists a b,
    head (select df "sf" m) = Some a /\ head (select df "ca" m) = Some b
    /\ r = Cmp.mk m (Row.exact_accuracy a) (Row.exact_accuracy b)
                  (Row.total_accuracy a) (Row.total_accuracy b)
                  (Row.exact_accuracy b - Row.exact_accuracy a)
                  (Row.total_accuracy b - Row.total_accuracy a).

(** * Properties *)

(** The test cell under the definition. *)
Example categorize_o3 :
  categorize_model "o3-2025-04-16" = ("o-series", "openai", true).
Proof. reflexivity. Qed.

Example categorize_opus_thinking :
  categorize_model "claude-opus-4-20250514--thinking" = ("claude", "anthropic", true).
Proof. reflexivity. Qed.

Example categorize_grok :
  categorize_model "grok-4" = ("grok", "x-ai", true).
Proof. reflexivity. Qed.

Example categorize_gemini :
  categorize_model "gemini-2_5-pro" = ("gemini", "google", true).
Proof. reflexivity. Qed.

(** ** String lemmas *)

Section StrFacts.
Import Str.

Lemma prefix_Prefix p s : String.prefix p s = true <-> Prefix p s.
Proof.
  revert s. induction p as [|a p IH]; intros s; simpl.
  - split; [intros _; exists s; reflexivity | destruct s; reflexivity].
  - destruct s as [|b s]; simpl.
    + split; [discriminate | intros [post H]; discriminate].
    + destruct (ascii_dec a b) as [->|Hab].
      * rewrite IH. split; intros [post H]; exists post.
        -- simpl. now rewrite H.
        -- simpl in H. now injection H.
      * split; [discriminate | intros [post H]; simpl in H; injection H as H1 _; congruence].
Qed.

Lemma contains_Substring sub s : contains sub s = true <-> Substring sub s.
Proof.
  induction s as [|c s IH]; cbn [contains].
  - rewrite orb_false_r, prefix_Prefix. split.
    + intros [post H]. exists "", post. exact H.
    + intros [pre [post H]]. destruct pre; [exists post; exact H | discriminate].
  - rewrite orb_true_iff, prefix_Prefix, IH. split.
    + intros [[post H] | [pre [post H]]].
      * exists "", post. exact H.
      * exists (String c pre), post. simpl. now rewrite H.
    + intros [pre [post H]]. destruct pre as [|c' pre]; simpl in H.
      * left. exists post. exact H.
      * right. exists pre, post. now injection H.
Qed.

Lemma contains_false sub s : contains sub s = false <-> ~ Substring sub s.
Proof.
  rewrite <- contains_Substring. destruct (contains sub s); split; easy.
Qed.

Lemma Prefix_Substring p s : Prefix p s -> Substring p s.
Proof. intros [post H]. exists "", post. exact H. Qed.

Lemma lower_app s t : lower (s ++ t) = lower s ++ lower t.
Proof. induction s as [|c s IH]; simpl; [reflexivity | now rewrite IH]. Qed.

(** Lower-casing keeps every occurrence of a substring, lower-cased. *)
Lemma Substring_lower sub s : Substring sub s -> Substring (lower sub) (lower s).
Proof.
  intros [pre [post ->]]. exists (lower pre), (lower post).
  now rewrite !lower_app.
Qed.

End StrFacts.

(** ** The classifier's contract *)

Section Classifier.
Import Str.

(** The thinking flag, read off the five tests of the source. *)
Lemma is_thinking_spec name :
  (categorize_model name).2 = true <->
  Substring "--thinking" (lower name)
  \/ (Prefix "o3" (lower name) \/ Prefix "o4" (lower name))
  \/ Substring "deepseek-r1" (lower name)
  \/ Substring "grok" (lower name)
  \/ Substring "gemini" (lower name).
Proof.
  unfold categorize_model. cbn [snd any existsb]. unfold startswith.
  rewrite !orb_true_iff, !contains_Substring, !prefix_Prefix.
  intuition discriminate.
Qed.

Lemma family_spec name :
  (categorize_model name).1.1 =
  let s := lower name in
  if contains "o3" s || contains "o4" s then "o-series"
  else if contains "gpt" s then "gpt"
  else if contains "claude" s then "claude"
  else if contains "grok" s then "grok"
  else if contains "deepseek" s then "deepseek"
  else if contains "gemini" s then "gemini"
  else if contains "llama" s then "llama"
  else if contains "kimi" s then "kimi"
  else "other".
Proof. reflexivity. Qed.

Lemma company_spec name :
  (categorize_model name).1.2 =
  let s := lower name in
  if contains "gpt" s || (contains "o3" s || contains "o4" s) then "openai"
  else if contains "claude" s then "anthropic"
  else if contains "gemini" s then "google"
  else if contains "grok" s then "x-ai"
  else if contains "deepseek" s then "deepseek"
  else if contains "kimi" s then "moonshot"
  else if contains "llama" s then "meta"
  else "other".
Proof.
  unfold categorize_model. cbn [fst snd any existsb map].
  now rewrite orb_false_r.
Qed.

Lemma categorize_model_eta name :
  categorize_model name =
  ((categorize_model name).1.1, (categorize_model name).1.2, (categorize_model name).2).
Proof. reflexivity. Qed.

End Classifier.

(** C1. For every model name, compared case-insensitively, the classifier
    returns [is_thinking = true] exactly when the lower-cased name contains
    ['--thinking'], or starts with ['o3'] or ['o4'], or contains
    ['deepseek-r1'], ['grok'] or ['gemini']; in particular every name that
    contains the marker ['--thinking'] is a thinking model. *)
Theorem categorize_model_is_thinking (name : string) :
  ((categorize_model name).2 = true <->
     Str.Substring "--thinking" (Str.lower name)
     \/ Str.Prefix "o3" (Str.lower name)
     \/ Str.Prefix "o4" (Str.lower name)
     \/ Str.Substring "deepseek-r1" (Str.lower name)
     \/ Str.Substring "grok" (Str.lower name)
     \/ Str.Substring "gemini" (Str.lower name))
  /\ (Str.Substring "--thinking" name -> (categorize_model name).2 = true).
Proof.
  split.
  - rewrite is_thinking_spec. tauto.
  - intros H. apply is_thinking_spec. left.
    exact (Substring_lower "--thinking" name H).
Qed.

Lemma categorize_model_is_thinking_witness :
  Str.Substring "--thinking" "claude-opus-4-20250514--thinking"
  /\ (categorize_model "claude-opus-4-20250514--thinking").2 = true.
Proof.
  assert (H : Str.Substring "--thinking" "claude-opus-4-20250514--thinking")
    by (exists "claude-opus-4-20250514", ""; reflexivity).
  split; [exact H |].
  exact (proj2 (categorize_model_is_thinking "claude-opus-4-20250514--thinking") H).
Defined.

(** C4. The classifier is total: every string, the empty one included,
    gets a (family, company, is_thinking) triple whose family and company
    come from the fixed enumerations, and a name matching none of the
    keyword tables gets exactly ('other', 'other', False). *)
Theorem categorize_model_total (name : string) :
  (exists family company is_thinking,
      categorize_model name = (family, company, is_thinking)
      /\ In family families /\ In company companies)
  /\ categorize_model "" = ("other", "other", false)
  /\ (no_keyword (Str.lower name) ->
      categorize_model name = ("other", "other", false)).
Proof.
  split; [| split].
  - exists (categorize_model name).1.1, (categorize_model name).1.2,
      (categorize_model name).2.
    split; [apply categorize_model_eta |]. split.
    + rewrite family_spec. cbv zeta.
      repeat match goal with
             | |- context [if ?b then _ else _] => destruct b
             end; simpl; tauto.
    + rewrite company_spec. cbv zeta.
      repeat match goal with
             | |- context [if ?b then _ else _] => destruct b
             end; simpl; tauto.
  - reflexivity.
  - unfold no_keyword, thinking_markers, family_keywords, company_keywords.
    cbn [app]. rewrite !Forall_cons. rewrite <- !contains_false.
    intros H. rewrite categorize_model_eta. f_equal; [f_equal |].
    + rewrite family_spec. cbv zeta.
      destruct H as (_ & -> & -> & _ & _ & _ & _ & _ & _ & -> & -> & -> & -> & -> & -> & -> & _).
      reflexivity.
    + rewrite company_spec. cbv zeta.
      destruct H as (_ & -> & -> & _ & _ & _ & _ & _ & _ & -> & -> & -> & -> & -> & -> & -> & _).
      reflexivity.
    + destruct ((categorize_model name).2) eqn:E; [| reflexivity].
      apply is_thinking_spec in E.
      destruct H as (H1 & H2 & H3 & H4 & H5 & H6 & _).
      rewrite contains_false in H1, H2, H3, H4, H5, H6.
      destruct E as [E | [[E | E] | [E | [E | E]]]];
        try (apply Prefix_Substring in E); contradiction.
Qed.

Lemma categorize_model_total_witness :
  no_keyword (Str.lower "Mistral-Large")
  /\ categorize_model "Mistral-Large" = ("other", "other", false).
Proof.
  assert (H : no_keyword (Str.lower "Mistral-Large")).
  { unfold no_keyword. apply Forall_forall. intros k Hk.
    apply contains_false. revert k Hk. apply Forall_forall.
    repeat constructor. }
  split; [exact H |].
  exact (proj2 (proj2 (categorize_model_total "Mistral-Large")) H).
Defined.

(** C8. A name that contains 'o3' or 'o4' without starting with either,
    and carries no other thinking marker, is filed under family
    'o-series' and company 'openai' whatever other keyword it contains,
    and yet is not a thinking model: the thinking test asks for a prefix,
    the family and company tests for a substring. *)
Theorem o_series_asymmetry (name : string) :
  Str.Substring "o3" (Str.lower name) \/ Str.Substring "o4" (Str.lower name) ->
  ~ Str.Prefix "o3" (Str.lower name) ->
  ~ Str.Prefix "o4" (Str.lower name) ->
  ~ Str.Substring "--thinking" (Str.lower name) ->
  ~ Str.Substring "deepseek-r1" (Str.lower name) ->
  ~ Str.Substring "grok" (Str.lower name) ->
  ~ Str.Substring "gemini" (Str.lower name) ->
  categorize_model name = ("o-series", "openai", false).
Proof.
  intros Ho Hp3 Hp4 Ht Hd Hg Hm.
  assert (Hc : Str.contains "o3" (Str.lower name) || Str.contains "o4" (Str.lower name) = true).
  { rewrite orb_true_iff, !contains_Substring. exact Ho. }
  rewrite categorize_model_eta. f_equal; [f_equal |].
  - rewrite family_spec. cbv zeta. now rewrite Hc.
  - rewrite company_spec. cbv zeta. rewrite Hc. now rewrite orb_true_r.
  - destruct ((categorize_model name).2) eqn:E; [| reflexivity].
    apply is_thinking_spec in E. tauto.
Qed.

Lemma o_series_asymmetry_witness :
  categorize_model "claude-o3-preview" = ("o-series", "openai", false).
Proof.
  apply o_series_asymmetry.
  - left. exists "claude-", "-preview". reflexivity.
  - rewrite <- prefix_Prefix. discriminate.
  - rewrite <- prefix_Prefix. discriminate.
  - apply contains_false. reflexivity.
  - apply contains_false. reflexivity.
  - apply contains_false. reflexivity.
  - apply contains_false. reflexivity.
Defined.

(** ** The order on binary64 values *)

Section FloatOrder.

(** Case analysis on the IEEE comparison of the specification floats. *)
Ltac sf_cases :=
  unfold SFleb, SFltb, SFeqb, SFcompare;
  repeat match goal with
         | x : spec_float |- _ => destruct x as [[]|[]| |[] ? ?]
         end;
  try (intros; congruence);
  change (Pos.compare_cont Eq) with Pos.compare;
  repeat match goal with
         | |- context [(?a ?= ?b)%Z] => destruct (Z.compare_spec a b)
         | |- context [(?a ?= ?b)%positive] => destruct (Pos.compare_spec a b)
         end;
  cbn [CompOpp]; intros; try congruence; try lia.

Lemma SFeqb_refl x : x <> S754_nan -> SFeqb x x = true.
Proof. sf_cases. Qed.

Lemma SFleb_refl x : x <> S754_nan -> SFleb x x = true.
Proof. sf_cases. Qed.

Lemma SFltb_leb x y : SFltb x y = true -> SFleb x y = true.
Proof. sf_cases. Qed.

Lemma SFleb_total x y :
  x <> S754_nan -> y <> S754_nan -> SFltb x y = false -> SFleb y x = true.
Proof. sf_cases. Qed.

Lemma SFltb_not_eqb x y : SFltb x y = true -> SFeqb y x = false.
Proof. sf_cases. Qed.

Lemma SFleb_ltb_trans x y z :
  SFleb x y = true -> SFltb y z = true -> SFltb x z = true.
Proof. sf_cases. Qed.

(** A float is a number when it is not NaN. *)
Lemma is_nan_false x : is_nan x = false <-> Prim2SF x <> S754_nan.
Proof.
  unfold is_nan. rewrite FloatAxioms.eqb_spec, negb_false_iff. split.
  - intros H E. rewrite E in H. discriminate.
  - apply SFeqb_refl.
Qed.

Lemma float_le_refl x : is_nan x = false -> (x <=? x)%float = true.
Proof. rewrite is_nan_false, FloatAxioms.leb_spec. apply SFleb_refl. Qed.

Lemma float_lt_le x y : (x <? y)%float = true -> (x <=? y)%float = true.
Proof. rewrite FloatAxioms.ltb_spec, FloatAxioms.leb_spec. apply SFltb_leb. Qed.

Lemma float_le_total x y :
  is_nan x = false -> is_nan y = false ->
  (x <? y)%float = false -> (y <=? x)%float = true.
Proof. rewrite !is_nan_false, FloatAxioms.ltb_spec, FloatAxioms.leb_spec. apply SFleb_total. Qed.

Lemma float_le_lt_trans x y z :
  (x <=? y)%float = true -> (y <? z)%float = true -> (x <? z)%float = true.
Proof. rewrite FloatAxioms.leb_spec, !FloatAxioms.ltb_spec. apply SFleb_ltb_trans. Qed.

Lemma float_lt_not_eq x y : (x <? y)%float = true -> (y =? x)%float = false.
Proof. rewrite FloatAxioms.ltb_spec, FloatAxioms.eqb_spec. apply SFltb_not_eqb. Qed.

End FloatOrder.

(** ** The sign of a binary64 difference *)

Section SubSign.
Local Open Scope Z_scope.

Lemma digits2_pos_lower p : 2 ^ (Zpos (digits2_pos p) - 1) <= Zpos p.
Proof.
  induction p as [p IH|p IH|]; cbn [digits2_pos].
  - rewrite Pos2Z.inj_succ. replace (Z.succ (Zpos (digits2_pos p)) - 1)
      with (Z.succ (Zpos (digits2_pos p) - 1)) by lia.
    rewrite Z.pow_succ_r by lia. lia.
  - rewrite Pos2Z.inj_succ. replace (Z.succ (Zpos (digits2_pos p)) - 1)
      with (Z.succ (Zpos (digits2_pos p) - 1)) by lia.
    rewrite Z.pow_succ_r by lia. lia.
  - reflexivity.
Qed.

Lemma digits2_pos_upper p : Zpos p < 2 ^ Zpos (digits2_pos p).
Proof.
  induction p as [p IH|p IH|]; cbn [digits2_pos].
  - rewrite Pos2Z.inj_succ, Z.pow_succ_r by lia. lia.
  - rewrite Pos2Z.inj_succ, Z.pow_succ_r by lia. lia.
  - reflexivity.
Qed.

Lemma shr_1_m mrs : 0 <= shr_m mrs -> shr_m (shr_1 mrs) = shr_m mrs / 2.
Proof.
  destruct mrs as [m r s]. cbn [shr_m]. intros Hm.
  destruct m as [|[p|p|]|p]; cbn [shr_1 shr_m].
  - reflexivity.
  - rewrite Pos2Z.inj_xI. apply Z.div_unique with (r := 1); lia.
  - rewrite Pos2Z.inj_xO. apply Z.div_unique with (r := 0); lia.
  - reflexivity.
  - lia.
Qed.

Lemma iter_pos_shr_m q : forall mrs,
  0 <= shr_m mrs ->
  shr_m (SpecFloat.iter_pos shr_1 q mrs) = shr_m mrs / 2 ^ Zpos q.
Proof.
  induction q as [q IH|q IH|]; intros mrs Hm; cbn [SpecFloat.iter_pos].
  - assert (H1 : 0 <= shr_m (shr_1 mrs))
      by (rewrite shr_1_m by assumption; apply Z.div_pos; lia).
    assert (H2 : 0 <= shr_m (SpecFloat.iter_pos shr_1 q (shr_1 mrs)))
      by (rewrite IH by assumption; apply Z.div_pos; lia).
    rewrite IH, IH, shr_1_m by assumption.
    rewrite !Z.div_div by lia. f_equal.
    rewrite Pos2Z.inj_xI.
    replace (2 * Z.pos q + 1) with (1 + Z.pos q + Z.pos q) by lia.
    rewrite !Z.pow_add_r by lia. change (2 ^ 1) with 2. ring.
  - assert (H2 : 0 <= shr_m (SpecFloat.iter_pos shr_1 q mrs))
      by (rewrite IH by assumption; apply Z.div_pos; lia).
    rewrite IH, IH by assumption.
    rewrite !Z.div_div by lia. f_equal.
    rewrite <- Z.pow_add_r by lia. f_equal. lia.
  - rewrite shr_1_m by assumption. reflexivity.
Qed.

Lemma shr_record_of_loc_m m l : shr_m (shr_record_of_loc m l) = m.
Proof. destruct l as [|[]]; reflexivity. Qed.

Lemma shr_fexp_pos m e l :
  0 < m -> emin <= e ->
  0 < shr_m (fst (shr_fexp prec emax m e l))
  /\ emin <= snd (shr_fexp prec emax m e l).
Proof.
  intros Hm He. unfold shr_fexp, shr.
  destruct m as [|p|p]; try lia. cbn [Zdigits2].
  pose proof (digits2_pos_lower p) as Hlow.
  set (d := Zpos (digits2_pos p)) in *.
  assert (Hd : 1 <= d) by (unfold d; lia).
  unfold fexp. change (SpecFloat.emin prec emax) with (-1074) in *. change prec with 53.
  destruct (Z.max (d + e - 53) (-1074) - e) as [|q|q] eqn:En; cbn [fst snd];
    rewrite ?shr_record_of_loc_m; try lia.
  rewrite iter_pos_shr_m by (rewrite shr_record_of_loc_m; lia).
  rewrite shr_record_of_loc_m. split; [| lia].
  apply Z.div_str_pos. split; [lia |].
  apply Z.le_trans with (2 ^ (d - 1)); [| exact Hlow].
  apply Z.pow_le_mono_r; lia.
Qed.

Lemma round_nearest_even_pos m l : 0 < m -> 0 < round_nearest_even m l.
Proof.
  intros Hm. destruct l as [|[]]; cbn [round_nearest_even]; try lia.
  destruct (Z.even m); lia.
Qed.

Lemma binary_round_aux_signed s m e l :
  0 < m -> emin <= e -> signed s (binary_round_aux prec emax s m e l).
Proof.
  intros Hm He. unfold binary_round_aux.
  destruct (shr_fexp_pos m e l Hm He) as [H1 H2].
  destruct (shr_fexp prec emax m e l) as [mrs' e']. cbn [fst snd] in H1, H2.
  pose proof (round_nearest_even_pos _ (loc_of_shr_record mrs') H1) as H3.
  destruct (shr_fexp_pos _ e' loc_Exact H3 H2) as [H4 _].
  destruct (shr_fexp prec emax _ e' loc_Exact) as [mrs'' e'']. cbn [fst] in H4.
  destruct (shr_m mrs'') as [|m''|m'']; try lia.
  destruct (e'' <=? emax - prec); [left; eauto | now right].
Qed.

Lemma binary_round_signed s p e :
  emin <= e -> signed s (binary_round prec emax s p e).
Proof.
  intros He. unfold binary_round, shl_align.
  assert (Hf : emin <= fexp prec emax (Zpos (digits2_pos p) + e))
    by (unfold fexp; lia).
  destruct (fexp prec emax (Zpos (digits2_pos p) + e) - e) as [|q|q];
    apply binary_round_aux_signed; lia.
Qed.

Lemma binary_normalize_sign d e :
  emin <= e ->
  SFltb (S754_zero false) (binary_normalize prec emax d e false) = (0 <? d).
Proof.
  intros He. unfold binary_normalize. destruct d as [|p|p].
  - reflexivity.
  - destruct (binary_round_signed false p e He) as [(m' & e' & ->) | ->]; reflexivity.
  - destruct (binary_round_signed true p e He) as [(m' & e' & ->) | ->]; reflexivity.
Qed.

Lemma iter_xO_value m d : Zpos (Pos.iter xO m d) = Zpos m * 2 ^ Zpos d.
Proof.
  induction d as [|d IH] using Pos.peano_ind.
  - cbn [Pos.iter]. rewrite Pos2Z.inj_xO. change (2 ^ 1) with 2. lia.
  - rewrite Pos.iter_succ, Pos2Z.inj_xO, IH, Pos2Z.inj_succ, Z.pow_succ_r by lia. ring.
Qed.

Lemma shl_align_value m e e' :
  e' <= e -> Zpos (fst (shl_align m e e')) = Zpos m * 2 ^ (e - e').
Proof.
  intros He. unfold shl_align.
  destruct (e' - e) as [|d|d] eqn:Ed; cbn [fst]; try lia.
  - replace (e - e') with 0 by lia. lia.
  - rewrite iter_xO_value. f_equal. f_equal. lia.
Qed.

(** What a valid finite float's mantissa and exponent satisfy. *)
Lemma bounded_facts m e :
  bounded prec emax m e = true ->
  emin <= e /\ Zpos m < 2 ^ 53 /\ (emin < e -> 2 ^ 52 <= Zpos m).
Proof.
  unfold bounded, canonical_mantissa, fexp. rewrite andb_true_iff, Z.eqb_eq.
  change (SpecFloat.emin prec emax) with (-1074). change prec with 53.
  intros [Hc _].
  pose proof (digits2_pos_lower m) as Hlow. pose proof (digits2_pos_upper m) as Hup.
  set (d := Zpos (digits2_pos m)) in *.
  split; [lia |]. split.
  - apply Z.lt_le_trans with (2 ^ d); [exact Hup |]. apply Z.pow_le_mono_r; lia.
  - intros He. replace d with 53 in Hlow by lia. exact Hlow.
Qed.

(** Aligned on the smaller exponent, two valid mantissas compare as the
    floats do: by exponent first, then by mantissa. *)
Lemma aligned_compare mx ex my ey :
  bounded prec emax mx ex = true -> bounded prec emax my ey = true ->
  (Zpos mx * 2 ^ (ex - Z.min ex ey) ?= Zpos my * 2 ^ (ey - Z.min ex ey)) =
  match ex ?= ey with
  | Eq => (mx ?= my)%positive
  | c => c
  end.
Proof.
  intros Hx Hy.
  apply bounded_facts in Hx as (Hex & Hmx & Hnx).
  apply bounded_facts in Hy as (Hey & Hmy & Hny).
  destruct (Z.compare_spec ex ey) as [-> | Hlt | Hgt].
  - rewrite Z.min_id, Z.sub_diag. change (2 ^ 0) with 1. rewrite !Z.mul_1_r. reflexivity.
  - rewrite Z.min_l by lia. rewrite Z.sub_diag. change (2 ^ 0) with 1. rewrite Z.mul_1_r.
    apply Z.compare_lt_iff.
    assert (H2 : 2 ^ 1 <= 2 ^ (ey - ex)) by (apply Z.pow_le_mono_r; lia).
    change (2 ^ 1) with 2 in H2. specialize (Hny ltac:(lia)).
    change (2 ^ 53) with 9007199254740992 in *. change (2 ^ 52) with 4503599627370496 in *.
    nia.
  - rewrite Z.min_r by lia. rewrite Z.sub_diag. change (2 ^ 0) with 1. rewrite Z.mul_1_r.
    apply Z.compare_gt_iff.
    assert (H2 : 2 ^ 1 <= 2 ^ (ex - ey)) by (apply Z.pow_le_mono_r; lia).
    change (2 ^ 1) with 2 in H2. specialize (Hnx ltac:(lia)).
    change (2 ^ 53) with 9007199254740992 in *. change (2 ^ 52) with 4503599627370496 in *.
    nia.
Qed.

(** The sign of a difference: [x - y] is positive exactly when [y < x]. *)
Lemma SFsub_sign x y :
  valid_binary x = true -> valid_binary y = true ->
  SFltb (S754_zero false) (SF64sub x y) = SFltb y x.
Proof.
  destruct x as [sx|sx| |sx mx ex], y as [sy|sy| |sy my ey]; intros Hx Hy;
    try reflexivity;
    try (destruct sx; try destruct sy; reflexivity);
    try (destruct sy; reflexivity).
  cbn [SpecFloat.valid_binary] in Hx, Hy.
  unfold SF64sub, SFsub. cbv zeta.
  pose proof (bounded_facts _ _ Hx) as (Hex & _). pose proof (bounded_facts _ _ Hy) as (Hey & _).
  rewrite binary_normalize_sign by lia.
  rewrite !shl_align_value by lia.
  pose proof (aligned_compare my ey mx ex Hy Hx) as Hc.
  rewrite (Z.min_comm ey ex) in Hc.
  set (a := Zpos mx * 2 ^ (ex - Z.min ex ey)) in *.
  set (b := Zpos my * 2 ^ (ey - Z.min ex ey)) in *.
  assert (Ha : 0 < a) by (unfold a; apply Z.mul_pos_pos; [lia | apply Z.pow_pos_nonneg; lia]).
  assert (Hb : 0 < b) by (unfold b; apply Z.mul_pos_pos; [lia | apply Z.pow_pos_nonneg; lia]).
  unfold SFltb, SFcompare. change (Pos.compare_cont Eq) with Pos.compare.
  destruct sx, sy; cbn [cond_Zopp].
  - destruct (Z.compare_spec b a) as [E|E|E];
      destruct (ey ?= ex); try discriminate; rewrite <- ?Hc; cbn [CompOpp];
      apply Z.ltb_lt || apply Z.ltb_ge; lia.
  - apply Z.ltb_ge. lia.
  - apply Z.ltb_lt. lia.
  - destruct (Z.compare_spec b a) as [E|E|E];
      destruct (ey ?= ex); try discriminate; rewrite <- ?Hc;
      apply Z.ltb_lt || apply Z.ltb_ge; lia.
Qed.

Lemma float_sub_pos (x y : float) : (0 <? x - y)%float = (y <? x)%float.
Proof.
  rewrite !FloatAxioms.ltb_spec, sub_spec.
  change (Prim2SF 0) with (S754_zero false).
  apply SFsub_sign; apply Prim2SF_valid.
Qed.

End SubSign.

(** ** The error monad and the loops *)

Lemma bind_Ok {A B : Type} (m : result A) (f : A -> result B) (b : B) :
  m ≫= f = Ok b <-> exists a, m = Ok a /\ f a = Ok b.
Proof.
  destruct m as [a|e]; cbn.
  - split; [intros H; exists a; auto | intros [a' [[= <-] H]]; exact H].
  - split; [discriminate | intros [a' [[=] _]]].
Qed.

Lemma bind_Raise {A B : Type} (m : result A) (f : A -> result B) (e : pyerr) :
  m = Raise e -> m ≫= f = Raise e.
Proof. intros ->. reflexivity. Qed.

Section Loops.
Context {A B : Type}.

(** A loop returns normally exactly when every iteration does. *)
Lemma for_each_Ok (body : A -> result B) (l : list A) (bs : list B) :
  for_each body l = Ok bs <-> Forall2 (fun a b => body a = Ok b) l bs.
Proof.
  revert bs. induction l as [|a l IH]; intros bs; cbn [for_each].
  - split; [intros [= <-]; constructor | intros H; inversion H; reflexivity].
  - rewrite bind_Ok. split.
    + intros [b [Hb H]]. destruct (for_each body l) as [bs'|] eqn:E; [| discriminate].
      cbn in H. injection H as <-. constructor; [exact Hb | now apply IH].
    + intros H. inversion H as [|? b ? bs' Hb Hbs]; subst.
      exists b. split; [exact Hb |]. apply IH in Hbs. now rewrite Hbs.
Qed.

End Loops.

(** ** Dictionaries *)

Section Dict.
Context {V : Type}.
Implicit Types (d : pydict V) (k : string) (v : V).

Lemma dict_get_set_eq k v d : dict_get k (dict_set k v d) = Some v.
Proof.
  induction d as [|[k' v'] d IH]; cbn [dict_set dict_get].
  - now rewrite String.eqb_refl.
  - destruct (String.eqb_spec k k') as [->|Hne]; cbn [dict_get].
    + now rewrite String.eqb_refl.
    + destruct (String.eqb_spec k k'); [contradiction | exact IH].
Qed.

Lemma dict_get_set_ne k k' v d :
  k <> k' -> dict_get k' (dict_set k v d) = dict_get k' d.
Proof.
  intros Hne. induction d as [|[k0 v0] d IH]; cbn [dict_set dict_get].
  - destruct (String.eqb_spec k' k); [congruence | reflexivity].
  - destruct (String.eqb_spec k k0) as [->|Hk]; cbn [dict_get].
    + destruct (String.eqb_spec k' k0); [congruence | reflexivity].
    + now rewrite IH.
Qed.

(** Setting a key keeps the keys in their order: a known key stays where
    it is, a new one goes last. *)
Lemma dict_set_keys k v d :
  (dict_set k v d).*1 =
  match dict_get k d with Some _ => d.*1 | None => (d.*1 ++ [k])%list end.
Proof.
  induction d as [|[k' v'] d IH]; cbn [dict_set dict_get]; [reflexivity |].
  destruct (String.eqb_spec k k') as [->|Hne]; [reflexivity |].
  cbn [fmap list_fmap fst]. rewrite IH. now destruct (dict_get k d).
Qed.

End Dict.

(** ** The merge *)

Lemma thinking_results_sf : thinking_results !! "sf" = Some thinking_sf.
Proof. reflexivity. Qed.

Lemma thinking_results_ca : thinking_results !! "ca" = Some thinking_ca.
Proof. reflexivity. Qed.

(** The merge, case by case on the two keys it reads. *)
Lemma merge_spec (loaded : gmap string (pydict (gmap string float))) :
  merge loaded =
  match loaded !! "sf", loaded !! "ca" with
  | None, _ => Raise (KeyError "sf")
  | Some _, None => Raise (KeyError "ca")
  | Some sf, Some ca =>
      Ok (<["ca" := dict_update ca thinking_ca]>
            (<["sf" := dict_update sf thinking_sf]> loaded))
  end.
Proof.
  unfold merge, datasets. cbn [for_state]. unfold merge_dataset, getitem.
  rewrite thinking_results_sf, thinking_results_ca.
  destruct (loaded !! "sf") as [sf|] eqn:Esf; cbn; [| reflexivity].
  rewrite lookup_insert_ne by discriminate.
  destruct (loaded !! "ca") as [ca|] eqn:Eca; reflexivity.
Qed.

Lemma merge_Ok loaded eval_data :
  merge loaded = Ok eval_data ->
  exists sf ca,
    loaded !! "sf" = Some sf /\ loaded !! "ca" = Some ca
    /\ eval_data !! "sf" = Some (dict_update sf thinking_sf)
    /\ eval_data !! "ca" = Some (dict_update ca thinking_ca).
Proof.
  rewrite merge_spec.
  destruct (loaded !! "sf") as [sf|]; [| discriminate].
  destruct (loaded !! "ca") as [ca|]; [| discriminate].
  intros [= <-]. exists sf, ca. repeat split.
  - rewrite lookup_insert_ne by discriminate. apply lookup_insert_eq.
  - apply lookup_insert_eq.
Qed.

(** C7. If the loaded file lacks a dataset key the merge reads ('sf' or
    'ca'), the merge raises KeyError on that key and the whole script ends
    with that error; with both keys present the merge succeeds. *)
Theorem merge_missing_key (loaded : gmap string (pydict (gmap string float))) :
  (loaded !! "sf" = None ->
   merge loaded = Raise (KeyError "sf") /\ analysis loaded = Raise (KeyError "sf"))
  /\ (is_Some (loaded !! "sf") -> loaded !! "ca" = None ->
      merge loaded = Raise (KeyError "ca") /\ analysis loaded = Raise (KeyError "ca"))
  /\ (forall sf ca, loaded !! "sf" = Some sf -> loaded !! "ca" = Some ca ->
      merge loaded =
      Ok (<["ca" := dict_update ca thinking_ca]>
            (<["sf" := dict_update sf thinking_sf]> loaded))).
Proof.
  split; [| split].
  - intros Hsf. assert (H : merge loaded = Raise (KeyError "sf"))
      by (rewrite merge_spec, Hsf; reflexivity).
    split; [exact H |]. unfold analysis. now apply bind_Raise.
  - intros [sf Hsf] Hca. assert (H : merge loaded = Raise (KeyError "ca"))
      by (rewrite merge_spec, Hsf, Hca; reflexivity).
    split; [exact H |]. unfold analysis. now apply bind_Raise.
  - intros sf ca Hsf Hca. rewrite merge_spec, Hsf, Hca. reflexivity.
Qed.

Lemma merge_missing_key_witness :
  analysis {[ "sf" := [("gpt-4o", metrics 50 5 5 0.1 0.1 0.2)] ]} = Raise (KeyError "ca")
  /\ merge {[ "sf" := []; "ca" := [] ]} =
     Ok (<["ca" := dict_update [] thinking_ca]>
           (<["sf" := dict_update [] thinking_sf]> {[ "sf" := []; "ca" := [] ]})).
Proof.
  split.
  - refine (proj2 (proj1 (proj2 (merge_missing_key _)) _ _)).
    + eexists. reflexivity.
    + reflexivity.
  - refine (proj2 (proj2 (merge_missing_key _)) _ _ _ _); reflexivity.
Defined.

(** ** The rows of the table *)

Lemma get_total_accuracy_Ok (data : gmap string float) (x : float) :
  get_total_accuracy data = Ok x <->
  exists e m, data !! "exactAccuracy" = Some e
              /\ data !! "mostlyAccuracy" = Some m
              /\ x = stored_or_sum data e m.
Proof.
  unfold get_total_accuracy, getitem, stored_or_sum.
  destruct (data !! "exactAccuracy") as [e|]; cbn.
  - destruct (data !! "mostlyAccuracy") as [m|]; cbn.
    + split.
      * intros [= <-]. exists e, m. now destruct (data !! "totalAccuracy").
      * intros (e' & m' & [= <-] & [= <-] & ->). now destruct (data !! "totalAccuracy").
    + split; [discriminate | intros (e' & m' & _ & [=] & _)].
  - split; [discriminate | intros (e' & m' & [=] & _)].
Qed.

Lemma result_row_Ok (dataset model : string) (data : gmap string float) (r : Row.t) :
  result_row dataset (model, data) = Ok r <->
  exists e m ts,
    data !! "exactAccuracy" = Some e
    /\ data !! "mostlyAccuracy" = Some m
    /\ data !! "totalSamples" = Some ts
    /\ r = Row.mk model dataset (categorize_model model).1.1
                  (categorize_model model).1.2 (categorize_model model).2
                  e m (stored_or_sum data e m) ts.
Proof.
  unfold result_row. destruct (categorize_model model) as [[family company] is_thinking].
  cbn [fst snd]. split.
  - intros H. apply bind_Ok in H as (e & He & H). apply bind_Ok in H as (m & Hm & H).
    apply bind_Ok in H as (t & Ht & H). apply bind_Ok in H as (ts & Hts & H).
    injection H as <-. unfold getitem in He, Hm, Hts.
    destruct (data !! "exactAccuracy") as [e'|] eqn:Ee; [| discriminate].
    destruct (data !! "mostlyAccuracy") as [m'|] eqn:Em; [| discriminate].
    destruct (data !! "totalSamples") as [ts'|]; [| discriminate].
    injection He as ->. injection Hm as ->. injection Hts as ->.
    apply get_total_accuracy_Ok in Ht as (e0 & m0 & He0 & Hm0 & ->).
    rewrite Ee in He0. rewrite Em in Hm0. injection He0 as <-. injection Hm0 as <-.
    exists e, m, ts. auto.
  - intros (e & m & ts & He & Hm & Hts & ->).
    assert (Ht : get_total_accuracy data = Ok (stored_or_sum data e m))
      by (apply get_total_accuracy_Ok; eauto).
    unfold getitem. rewrite He, Hm, Hts. cbn. rewrite Ht. reflexivity.
Qed.

Lemma token_row_Ok (dataset model : string) (data : gmap string float) (rs : list Tok.t) :
  token_row dataset (model, data) = Ok rs <->
  (data !! "avgOutputTokens" = None /\ rs = [])
  \/ exists t e m,
      data !! "avgOutputTokens" = Some t
      /\ data !! "exactAccuracy" = Some e
      /\ data !! "mostlyAccuracy" = Some m
      /\ rs = [Tok.mk model dataset (categorize_model model).1.1
                      (categorize_model model).2 t (stored_or_sum data e m)].
Proof.
  unfold token_row, has_tokens.
  destruct (categorize_model model) as [[family company] is_thinking]. cbn [fst snd].
  unfold getitem. destruct (data !! "avgOutputTokens") as [t|] eqn:Et.
  - rewrite bool_decide_eq_true_2 by eauto. cbn. split.
    + intros H. apply bind_Ok in H as (x & Hx & H). injection H as <-.
      apply get_total_accuracy_Ok in Hx as (e & m & He & Hm & ->).
      right. exists t, e, m. auto.
    + intros [[[=] _] | (t' & e & m & [= <-] & He & Hm & ->)].
      assert (Ht : get_total_accuracy data = Ok (stored_or_sum data e m))
        by (apply get_total_accuracy_Ok; eauto).
      now rewrite Ht.
  - rewrite bool_decide_eq_false_2 by (intros [? [=]]). split.
    + intros [= <-]. now left.
    + intros [[_ ->] | (t' & e & m & [=] & _)]. reflexivity.
Qed.

(** The loop over the two datasets, unfolded. *)
Lemma dataset_rows_Ok {R : Type}
    (body : string -> string * gmap string float -> result R)
    (eval_data : gmap string (pydict (gmap string float))) (rows : list (list R)) :
  for_each (dataset_rows body eval_data) datasets = Ok rows <->
  exists sf ca rsf rca,
    eval_data !! "sf" = Some sf /\ eval_data !! "ca" = Some ca
    /\ Forall2 (fun item r => body "sf" item = Ok r) sf rsf
    /\ Forall2 (fun item r => body "ca" item = Ok r) ca rca
    /\ rows = [rsf; rca].
Proof.
  rewrite for_each_Ok. unfold datasets, dataset_rows, getitem. split.
  - intros H. inversion H as [|? rsf ? rest Hsf H']; subst.
    inversion H' as [|? rca ? rest' Hca H'']; subst. inversion H''; subst.
    destruct (eval_data !! "sf") as [sf|]; [| discriminate].
    destruct (eval_data !! "ca") as [ca|]; [| discriminate].
    cbn in Hsf, Hca. apply for_each_Ok in Hsf, Hca.
    exists sf, ca, rsf, rca. auto.
  - intros (sf & ca & rsf & rca & Hsf & Hca & Fsf & Fca & ->).
    constructor; [| constructor; [| constructor]].
    + cbn beta. rewrite Hsf. cbn. now apply for_each_Ok.
    + cbn beta. rewrite Hca. cbn. now apply for_each_Ok.
Qed.

Lemma results_Ok eval_data df :
  results eval_data = Ok df <->
  exists sf ca rsf rca,
    eval_data !! "sf" = Some sf /\ eval_data !! "ca" = Some ca
    /\ Forall2 (fun item r => result_row "sf" item = Ok r) sf rsf
    /\ Forall2 (fun item r => result_row "ca" item = Ok r) ca rca
    /\ df = (rsf ++ rca)%list.
Proof.
  unfold results. rewrite bind_Ok. split.
  - intros (rows & H & [= <-]). apply dataset_rows_Ok in H
      as (sf & ca & rsf & rca & Hsf & Hca & Fsf & Fca & ->).
    exists sf, ca, rsf, rca. cbn. rewrite app_nil_r. auto.
  - intros (sf & ca & rsf & rca & Hsf & Hca & Fsf & Fca & ->).
    exists [rsf; rca]. split.
    + apply dataset_rows_Ok. exists sf, ca, rsf, rca. auto.
    + cbn. now rewrite app_nil_r.
Qed.

Lemma token_data_Ok eval_data rows :
  token_data eval_data = Ok rows <->
  exists sf ca tsf tca,
    eval_data !! "sf" = Some sf /\ eval_data !! "ca" = Some ca
    /\ Forall2 (fun item rs => token_row "sf" item = Ok rs) sf tsf
    /\ Forall2 (fun item rs => token_row "ca" item = Ok rs) ca tca
    /\ rows = (concat tsf ++ concat tca)%list.
Proof.
  unfold token_data. rewrite bind_Ok. split.
  - intros (rs & H & [= <-]). apply dataset_rows_Ok in H
      as (sf & ca & tsf & tca & Hsf & Hca & Fsf & Fca & ->).
    exists sf, ca, tsf, tca. cbn. rewrite !app_nil_r, concat_app. auto.
  - intros (sf & ca & tsf & tca & Hsf & Hca & Fsf & Fca & ->).
    exists [tsf; tca]. split.
    + apply dataset_rows_Ok. exists sf, ca, tsf, tca. auto.
    + cbn. now rewrite !app_nil_r, concat_app.
Qed.

(** ** Looking a record up in the table *)

Lemma result_row_keys dataset item r :
  result_row dataset item = Ok r ->
  Row.model r = item.1 /\ Row.dataset r = dataset.
Proof.
  destruct item as [model data]. rewrite result_row_Ok.
  intros (e & m & ts & _ & _ & _ & ->). split; reflexivity.
Qed.

Lemma select_app df1 df2 dataset m :
  select (df1 ++ df2) dataset m = (select df1 dataset m ++ select df2 dataset m)%list.
Proof. apply filter_app. Qed.

(** The rows of one dataset, asked for a model: the first row is the one
    built from the record the dictionary holds under that name. *)
Lemma select_rows_hit dataset d rows m data :
  Forall2 (fun item r => result_row dataset item = Ok r) d rows ->
  dict_get m d = Some data ->
  exists r, head (select rows dataset m) = Some r
            /\ result_row dataset (m, data) = Ok r.
Proof.
  induction 1 as [|[k v] r d rows Hr HF IH]; cbn [dict_get]; [discriminate |].
  destruct (result_row_keys _ _ _ Hr) as [Hm Hd]. cbn [fst] in Hm.
  unfold select. destruct (String.eqb_spec m k) as [->|Hne].
  - intros [= ->]. exists r. split; [| exact Hr].
    rewrite filter_cons_True; [reflexivity |].
    rewrite Hm, Hd, !String.eqb_refl. exact I.
  - intros Hget. destruct (IH Hget) as (r' & Hhead & Hr').
    exists r'. split; [| exact Hr'].
    rewrite filter_cons_False; [exact Hhead |].
    rewrite Hm. destruct (String.eqb_spec k m); [congruence |].
    now rewrite andb_false_r.
Qed.

Lemma select_rows_other dataset dataset' d rows m :
  dataset <> dataset' ->
  Forall2 (fun item r => result_row dataset' item = Ok r) d rows ->
  select rows dataset m = [].
Proof.
  intros Hne. induction 1 as [|item r d rows Hr HF IH]; [reflexivity |].
  destruct (result_row_keys _ _ _ Hr) as [_ Hd].
  unfold select. rewrite filter_cons_False; [exact IH |].
  rewrite Hd. destruct (String.eqb_spec dataset' dataset); [congruence | exact id].
Qed.

Lemma results_select eval_data df dataset d m data :
  results eval_data = Ok df ->
  dataset ∈ datasets ->
  eval_data !! dataset = Some d ->
  dict_get m d = Some data ->
  exists r, head (select df dataset m) = Some r
            /\ result_row dataset (m, data) = Ok r.
Proof.
  intros Hres Hin Hd Hget.
  apply results_Ok in Hres as (sf & ca & rsf & rca & Hsf & Hca & Fsf & Fca & ->).
  rewrite select_app. unfold datasets in Hin.
  apply elem_of_cons in Hin as [-> | Hin].
  - rewrite Hsf in Hd. injection Hd as <-.
    destruct (select_rows_hit _ _ _ _ _ Fsf Hget) as (r & Hhead & Hr).
    exists r. split; [| exact Hr].
    destruct (select rsf "sf" m); [discriminate | exact Hhead].
  - apply list_elem_of_singleton in Hin as ->.
    rewrite Hca in Hd. injection Hd as <-.
    rewrite (select_rows_other "ca" "sf" sf rsf m) by (discriminate || exact Fsf).
    exact (select_rows_hit _ _ _ _ _ Fca Hget).
Qed.

Lemma head_elem_of {A : Type} (l : list A) (x : A) : head l = Some x -> x ∈ l.
Proof. destruct l; [discriminate | intros [= ->]; left]. Qed.

Lemma select_elem_of df dataset m r :
  r ∈ select df dataset m -> r ∈ df /\ Row.dataset r = dataset /\ Row.model r = m.
Proof.
  unfold select. rewrite list_elem_of_filter. intros [H Hin].
  apply Is_true_true, andb_true_iff in H as [H1 H2].
  apply String.eqb_eq in H1, H2. auto.
Qed.

(** C2. For every record of the merged data that has the fields
    exactAccuracy and mostlyAccuracy, the total_accuracy computed for it,
    and placed in its row of the flattened table and of the token table,
    is the record's stored totalAccuracy when it has one and
    exactAccuracy + mostlyAccuracy otherwise. *)
Theorem total_accuracy_stored_or_sum
    (dataset model : string) (data : gmap string float) (e m : float) :
  data !! "exactAccuracy" = Some e ->
  data !! "mostlyAccuracy" = Some m ->
  get_total_accuracy data = Ok (stored_or_sum data e m)
  /\ (forall r, result_row dataset (model, data) = Ok r ->
      Row.total_accuracy r = stored_or_sum data e m)
  /\ (forall rows r, token_row dataset (model, data) = Ok rows -> r ∈ rows ->
      Tok.total_accuracy r = stored_or_sum data e m)
  /\ (forall eval_data items df,
      dataset ∈ datasets ->
      eval_data !! dataset = Some items ->
      dict_get model items = Some data ->
      results eval_data = Ok df ->
      exists r, head (select df dataset model) = Some r
                /\ Row.total_accuracy r = stored_or_sum data e m).
Proof.
  intros He Hm.
  assert (Hrow : forall r, result_row dataset (model, data) = Ok r ->
                           Row.total_accuracy r = stored_or_sum data e m).
  { intros r Hr. apply result_row_Ok in Hr as (e' & m' & ts & He' & Hm' & _ & ->).
    rewrite He in He'. rewrite Hm in Hm'. injection He' as <-. injection Hm' as <-.
    reflexivity. }
  split; [| split; [| split]].
  - apply get_total_accuracy_Ok. eauto.
  - exact Hrow.
  - intros rows r Hrows Hin.
    apply token_row_Ok in Hrows as [[_ ->] | (t & e' & m' & _ & He' & Hm' & ->)].
    + inversion Hin.
    + apply list_elem_of_singleton in Hin as ->.
      rewrite He in He'. rewrite Hm in Hm'. injection He' as <-. injection Hm' as <-.
      reflexivity.
  - intros eval_data items df Hin Hitems Hget Hres.
    destruct (results_select _ _ _ _ _ _ Hres Hin Hitems Hget) as (r & Hhead & Hr).
    exists r. split; [exact Hhead | now apply Hrow].
Qed.

Lemma total_accuracy_stored_or_sum_witness :
  get_total_accuracy {[ "exactAccuracy" := 0.25%float; "mostlyAccuracy" := 0.5%float;
                        "totalSamples" := 40%float ]} = Ok 0.75%float
  /\ get_total_accuracy (metrics 50 8 3 0.16 0.06 0.22) = Ok 0.22%float.
Proof.
  split.
  - exact (proj1 (total_accuracy_stored_or_sum "sf" "gpt-4o"
             {[ "exactAccuracy" := 0.25%float; "mostlyAccuracy" := 0.5%float;
                "totalSamples" := 40%float ]} 0.25 0.5 eq_refl eq_refl)).
  - exact (proj1 (total_accuracy_stored_or_sum "sf" "claude-opus-4-20250514--thinking"
             (metrics 50 8 3 0.16 0.06 0.22) 0.16 0.06 eq_refl eq_refl)).
Defined.

(** ** The supplemental block after the merge *)

Section Update.
Context {V : Type}.
Implicit Types (d other : pydict V) (k : string).

Lemma dict_get_app k d1 d2 :
  dict_get k (d1 ++ d2)%list =
  match dict_get k d1 with Some v => Some v | None => dict_get k d2 end.
Proof.
  induction d1 as [|[k' v'] d1 IH]; cbn [dict_get app]; [reflexivity |].
  now destruct (String.eqb k k').
Qed.

(** After [d.update(other)] a key reads the last value [other] gives it,
    and what [d] had when [other] has no such key. *)
Lemma dict_get_update k d other :
  dict_get k (dict_update d other) =
  match dict_get k (reverse other) with
  | Some v => Some v
  | None => dict_get k d
  end.
Proof.
  unfold dict_update. revert d.
  induction other as [|[k0 v0] other IH]; intros d; [reflexivity |].
  cbn [fold_left fst snd]. rewrite IH, reverse_cons, dict_get_app.
  destruct (dict_get k (reverse other)); [reflexivity |].
  cbn [dict_get]. destruct (String.eqb_spec k k0) as [->|Hne].
  - apply dict_get_set_eq.
  - apply dict_get_set_ne. congruence.
Qed.

End Update.

(** C9. The supplemental sf record of claude-opus-4-20250514--thinking
    (totalSamples 50, exactlyCorrect 8, mostlyCorrect 3, exactAccuracy
    0.16, mostlyAccuracy 0.06) gets total_accuracy 0.22 in the table:
    that is its stored value, and also what 0.16 + 0.06 gives. *)
Theorem opus_sf_total_accuracy :
  dict_get "claude-opus-4-20250514--thinking" thinking_sf
  = Some (metrics 50 8 3 0.16 0.06 0.22)
  /\ get_total_accuracy (metrics 50 8 3 0.16 0.06 0.22) = Ok 0.22%float
  /\ (0.16 + 0.06)%float = 0.22%float
  /\ (forall loaded eval_data df,
      merge loaded = Ok eval_data ->
      results eval_data = Ok df ->
      exists r, head (select df "sf" "claude-opus-4-20250514--thinking") = Some r
                /\ Row.total_accuracy r = 0.22%float).
Proof.
  split; [reflexivity |]. split; [reflexivity |]. split; [reflexivity |].
  intros loaded eval_data df Hmerge Hres.
  apply merge_Ok in Hmerge as (sf & ca & _ & _ & Hsf & _).
  assert (Hget : dict_get "claude-opus-4-20250514--thinking" (dict_update sf thinking_sf)
                 = Some (metrics 50 8 3 0.16 0.06 0.22))
    by (rewrite dict_get_update; reflexivity).
  assert (Hin : "sf" ∈ datasets) by (unfold datasets; left).
  destruct (results_select _ _ _ _ _ _ Hres Hin Hsf Hget) as (r & Hhead & Hr).
  exists r. split; [exact Hhead |].
  apply result_row_Ok in Hr as (e & m & ts & _ & _ & _ & ->). reflexivity.
Qed.

Lemma opus_sf_total_accuracy_witness :
  exists eval_data df r,
    merge example_loaded = Ok eval_data
    /\ results eval_data = Ok df
    /\ head (select df "sf" "claude-opus-4-20250514--thinking") = Some r
    /\ Row.total_accuracy r = 0.22%float.
Proof.
  destruct (proj2 (proj2 (proj2 opus_sf_total_accuracy))
              example_loaded _ _ eq_refl eq_refl) as (r & Hhead & Hr).
  eexists _, _, r. split; [reflexivity |]. split; [reflexivity |].
  split; [exact Hhead | exact Hr].
Defined.

(** ** Thinking improvement *)

Lemma divide_positive (a b : float) :
  (0 <? b)%float = true -> divide a b = Ok (a / b)%float.
Proof. intros H. unfold divide. now rewrite (float_lt_not_eq _ _ H). Qed.

Lemma relative_spec (improvement base_acc : float) :
  relative improvement base_acc =
  Ok (if (0 <? base_acc)%float then (improvement / base_acc)%float else 0%float).
Proof.
  unfold relative. destruct (0 <? base_acc)%float eqn:E; [| reflexivity].
  now apply divide_positive.
Qed.

Lemma zero_not_positive (b : float) : (b =? 0)%float = true -> (0 <? b)%float = false.
Proof.
  intros H. destruct (0 <? b)%float eqn:E; [| reflexivity].
  apply float_lt_not_eq in E. congruence.
Qed.

Lemma for_each_pure {A B : Type} (body : A -> result B) (f : A -> B) (l : list A) :
  (forall a, body a = Ok (f a)) -> for_each body l = Ok (map f l).
Proof.
  intros H. induction l as [|a l IH]; cbn [for_each map]; [reflexivity |].
  now rewrite H, IH.
Qed.

(** The inner loop body never raises; it appends one row when both
    versions are in the table, none otherwise. *)
Lemma improvement_of_spec df dataset base_model :
  improvement_of df dataset base_model =
  Ok match select df dataset base_model,
           select df dataset (base_model ++ "--thinking") with
     | b :: _, t :: _ =>
         let base_acc := Row.total_accuracy b in
         let thinking_acc := Row.total_accuracy t in
         [Imp.mk dataset base_model base_acc thinking_acc
                 (thinking_acc - base_acc)%float
                 (if (0 <? base_acc)%float
                  then ((thinking_acc - base_acc) / base_acc)%float
                  else 0%float)]
     | _, _ => []
     end.
Proof.
  unfold improvement_of.
  destruct (select df dataset base_model) as [|b ?]; [reflexivity |].
  destruct (select df dataset (base_model ++ "--thinking")) as [|t ?]; [reflexivity |].
  cbv zeta. now rewrite relative_spec.
Qed.

Lemma elem_of_concat {A : Type} (x : A) (ls : list (list A)) :
  x ∈ concat ls <-> exists l, l ∈ ls /\ x ∈ l.
Proof.
  rewrite list_elem_of_In, in_concat. split; intros (l & H1 & H2); exists l.
  - now rewrite !list_elem_of_In.
  - now rewrite <- !list_elem_of_In.
Qed.

Lemma elem_of_map {A B : Type} (f : A -> B) (l : list A) (y : B) :
  y ∈ map f l <-> exists x, y = f x /\ x ∈ l.
Proof.
  rewrite list_elem_of_In, in_map_iff. split; intros (x & H1 & H2); exists x.
  - now rewrite list_elem_of_In.
  - now rewrite <- list_elem_of_In.
Qed.

Lemma column_Ok df name : df <> [] -> column df name = Ok tt.
Proof. destruct df; [contradiction | reflexivity]. Qed.

Lemma column_nonempty df name u : column df name = Ok u -> df <> [].
Proof. destruct df; [discriminate | discriminate]. Qed.

(** On a table with rows the pass never raises, and its rows are those
    of the inner loop body, dataset by dataset and base model by base
    model. *)
Lemma thinking_improvements_spec df :
  df <> [] ->
  exists rows,
    thinking_improvements df = Ok rows
    /\ forall r, r ∈ rows <->
         exists dataset base_model rs,
           dataset ∈ datasets
           /\ base_model ∈ models_in_dataset df dataset
           /\ improvement_of df dataset base_model = Ok rs
           /\ r ∈ rs.
Proof.
  intros Hne.
  pose (rows_of := fun dataset base_model =>
          match improvement_of df dataset base_model with
          | Ok rs => rs
          | Raise _ => []
          end).
  assert (Hof : forall dataset base_model,
             improvement_of df dataset base_model = Ok (rows_of dataset base_model)).
  { intros dataset base_model. unfold rows_of.
    now rewrite improvement_of_spec. }
  pose (per := fun dataset =>
          concat (map (rows_of dataset) (models_in_dataset df dataset))).
  exists (concat (map per datasets)). split.
  - unfold thinking_improvements. rewrite (column_Ok df _ Hne). cbn [mbind result_bind].
    rewrite (for_each_pure _ per); [reflexivity |].
    intros dataset. rewrite (for_each_pure _ (rows_of dataset)) by apply Hof.
    reflexivity.
  - intros r. rewrite elem_of_concat. split.
    + intros (l & Hl & Hr). apply elem_of_map in Hl as (dataset & -> & Hd).
      unfold per in Hr. apply elem_of_concat in Hr as (rs & Hrs & Hr).
      apply elem_of_map in Hrs as (base_model & -> & Hb).
      exists dataset, base_model, (rows_of dataset base_model). auto.
    + intros (dataset & base_model & rs & Hd & Hb & Hrs & Hr).
      rewrite Hof in Hrs. injection Hrs as <-.
      exists (per dataset). split; [apply elem_of_map; eauto |].
      unfold per. apply elem_of_concat. exists (rows_of dataset base_model).
      split; [apply elem_of_map; eauto | exact Hr].
Qed.

Lemma thinking_improvements_nonempty df rows :
  thinking_improvements df = Ok rows -> df <> [].
Proof.
  unfold thinking_improvements. intros H.
  apply bind_Ok in H as (u & Hu & _). exact (column_nonempty _ _ _ Hu).
Qed.

(** C5. For every base/thinking pair of the paired-improvement pass the
    relative improvement is (thinking_accuracy - base_accuracy) /
    base_accuracy when base_accuracy > 0 and 0 otherwise; in particular a
    base accuracy of 0 gives 0, and no division by zero takes place: on a
    table with rows the pass does not raise. *)
Theorem relative_improvement_guarded :
  (forall improvement base_acc : float,
      relative improvement base_acc =
      Ok (if (0 <? base_acc)%float then (improvement / base_acc)%float else 0%float))
  /\ (forall improvement base_acc : float,
      (base_acc =? 0)%float = true -> relative improvement base_acc = Ok 0%float)
  /\ (forall df, df <> [] -> exists rows,
      thinking_improvements df = Ok rows
      /\ forall r, r ∈ rows ->
           (exists b t,
               head (select df (Imp.dataset r) (Imp.base_model r)) = Some b
               /\ head (select df (Imp.dataset r) (Imp.base_model r ++ "--thinking")) = Some t
               /\ Imp.base_accuracy r = Row.total_accuracy b
               /\ Imp.thinking_accuracy r = Row.total_accuracy t)
           /\ Imp.improvement r = (Imp.thinking_accuracy r - Imp.base_accuracy r)%float
           /\ Imp.relative_improvement r =
              if (0 <? Imp.base_accuracy r)%float
              then (Imp.improvement r / Imp.base_accuracy r)%float
              else 0%float).
Proof.
  split; [exact relative_spec |]. split.
  - intros improvement base_acc H.
    now rewrite relative_spec, (zero_not_positive _ H).
  - intros df Hne. destruct (thinking_improvements_spec df Hne) as (rows & Hrows & Hmem).
    exists rows. split; [exact Hrows |]. intros r Hr.
    apply Hmem in Hr as (dataset & base_model & rs & _ & _ & Hrs & Hr).
    rewrite improvement_of_spec in Hrs. injection Hrs as <-.
    destruct (select df dataset base_model) as [|b ?] eqn:Eb; [inversion Hr |].
    destruct (select df dataset (base_model ++ "--thinking")) as [|t ?] eqn:Et;
      [inversion Hr |].
    apply list_elem_of_singleton in Hr as ->. cbn.
    rewrite Eb, Et. split; [exists b, t; auto | auto].
Qed.

Lemma relative_improvement_guarded_witness :
  relative 0.25 0 = Ok 0%float
  /\ relative 0.25 0.5 = Ok 0.5%float.
Proof.
  split.
  - exact (proj1 (proj2 relative_improvement_guarded) 0.25%float 0%float eq_refl).
  - exact (proj1 relative_improvement_guarded 0.25%float 0.5%float).
Defined.

(** ** Token efficiency *)

Lemma token_rows_keys dataset d tss :
  Forall2 (fun item rs => token_row dataset item = Ok rs) d tss ->
  map (fun r => (Tok.dataset r, Tok.model r)) (concat tss) =
  map (fun item => (dataset, item.1))
      (filter (fun item => is_Some (item.2 !! "avgOutputTokens")) d).
Proof.
  induction 1 as [|[model data] rs d tss Hrs HF IH]; [reflexivity |].
  cbn [concat]. rewrite map_app, IH.
  apply token_row_Ok in Hrs as [[Hnone ->] | (t & e & m & Ht & _ & _ & ->)].
  - rewrite filter_cons_False; [reflexivity |].
    cbn [snd]. rewrite Hnone. now intros [? [=]].
  - rewrite filter_cons_True by (cbn [snd]; eauto). reflexivity.
Qed.

Lemma result_rows_keys dataset d rows :
  Forall2 (fun item r => result_row dataset item = Ok r) d rows ->
  map (fun r => (Row.dataset r, Row.model r)) rows =
  map (fun item => (dataset, item.1)) d.
Proof.
  induction 1 as [|item r d rows Hr HF IH]; [reflexivity |].
  cbn [map]. rewrite IH. destruct (result_row_keys _ _ _ Hr) as [-> ->].
  reflexivity.
Qed.

Lemma token_rows_elem dataset d tss r :
  Forall2 (fun item rs => token_row dataset item = Ok rs) d tss ->
  r ∈ concat tss ->
  exists data t e m,
    (Tok.model r, data) ∈ d
    /\ Tok.dataset r = dataset
    /\ data !! "avgOutputTokens" = Some t
    /\ data !! "exactAccuracy" = Some e
    /\ data !! "mostlyAccuracy" = Some m
    /\ Tok.avg_tokens r = t
    /\ Tok.total_accuracy r = stored_or_sum data e m.
Proof.
  induction 1 as [|[model data] rs d tss Hrs HF IH]; cbn [concat].
  - intros H. inversion H.
  - rewrite elem_of_app. intros [Hr | Hr].
    + apply token_row_Ok in Hrs as [[_ ->] | (t & e & m & Ht & He & Hm & ->)].
      * inversion Hr.
      * apply list_elem_of_singleton in Hr as ->.
        exists data, t, e, m. cbn. repeat split; auto. left.
    + destruct (IH Hr) as (data' & t & e & m & Hin & H').
      exists data', t, e, m. split; [now right | exact H'].
Qed.

(** C6. The token table holds exactly the records that carry
    avgOutputTokens, in order, so a record without it is left out; the
    results table still has a row for every record; and the efficiency of
    a token row is its record's total accuracy / avgOutputTokens * 1000. *)
Theorem token_efficiency
    (eval_data : gmap string (pydict (gmap string float))) (rows : list Tok.t) :
  token_data eval_data = Ok rows ->
  exists sf ca,
    eval_data !! "sf" = Some sf /\ eval_data !! "ca" = Some ca
    /\ map (fun r => (Tok.dataset r, Tok.model r)) rows =
       (map (fun item => ("sf", item.1))
            (filter (fun item => is_Some (item.2 !! "avgOutputTokens")) sf)
        ++ map (fun item => ("ca", item.1))
            (filter (fun item => is_Some (item.2 !! "avgOutputTokens")) ca))%list
    /\ (forall r, r ∈ rows ->
        exists items data t e m,
          eval_data !! Tok.dataset r = Some items
          /\ (Tok.model r, data) ∈ items
          /\ data !! "avgOutputTokens" = Some t
          /\ data !! "exactAccuracy" = Some e
          /\ data !! "mostlyAccuracy" = Some m
          /\ efficiency r = (stored_or_sum data e m / t * 1000)%float)
    /\ (forall df, results eval_data = Ok df ->
        map (fun r => (Row.dataset r, Row.model r)) df =
        (map (fun item => ("sf", item.1)) sf
         ++ map (fun item => ("ca", item.1)) ca)%list).
Proof.
  intros H. apply token_data_Ok in H
    as (sf & ca & tsf & tca & Hsf & Hca & Fsf & Fca & ->).
  exists sf, ca. split; [exact Hsf |]. split; [exact Hca |]. split; [| split].
  - rewrite map_app. f_equal; now apply token_rows_keys.
  - intros r Hr. apply elem_of_app in Hr as [Hr | Hr].
    + destruct (token_rows_elem _ _ _ _ Fsf Hr)
        as (data & t & e & m & Hin & Hd & Ht & He & Hm & Hat & Hta).
      exists sf, data, t, e, m. rewrite Hd. unfold efficiency.
      rewrite Hat, Hta. auto 10.
    + destruct (token_rows_elem _ _ _ _ Fca Hr)
        as (data & t & e & m & Hin & Hd & Ht & He & Hm & Hat & Hta).
      exists ca, data, t, e, m. rewrite Hd. unfold efficiency.
      rewrite Hat, Hta. auto 10.
  - intros df Hdf. apply results_Ok in Hdf
      as (sf' & ca' & rsf & rca & Hsf' & Hca' & Rsf & Rca & ->).
    rewrite Hsf in Hsf'. rewrite Hca in Hca'.
    injection Hsf' as <-. injection Hca' as <-.
    rewrite map_app. f_equal; now apply result_rows_keys.
Qed.

Lemma token_efficiency_witness :
  exists eval_data rows,
    merge example_loaded = Ok eval_data
    /\ token_data eval_data = Ok rows
    /\ exists sf ca,
        eval_data !! "sf" = Some sf /\ eval_data !! "ca" = Some ca
        /\ map (fun r => (Tok.dataset r, Tok.model r)) rows =
           (map (fun item => ("sf", item.1))
                (filter (fun item => is_Some (item.2 !! "avgOutputTokens")) sf)
            ++ map (fun item => ("ca", item.1))
                (filter (fun item => is_Some (item.2 !! "avgOutputTokens")) ca))%list.
Proof.
  eexists _, _. split; [reflexivity |].
  match goal with |- ?P /\ _ => assert (H : P) by reflexivity end.
  split; [exact H |].
  destruct (token_efficiency _ _ H) as (sf & ca & Hsf & Hca & Hkeys & _).
  exists sf, ca. auto.
Defined.

(** ** Group-best *)

Section Idxmax.

(** [idxmax_from] answers with the candidate it was given, when nothing
    later beats it, or with the first strictly larger value after which
    nothing is larger. *)
Lemma idxmax_from_Some (l : list (nat * float)) :
  forall best i,
    (forall i0 b, best = Some (i0, b) -> is_nan b = false) ->
    idxmax_from best l = Some i ->
    (exists b, best = Some (i, b)
               /\ forall j y, (j, y) ∈ l -> is_nan y = false -> (y <=? b)%float = true)
    \/ (exists pre x post,
           l = (pre ++ (i, x) :: post)%list
           /\ is_nan x = false
           /\ (forall i0 b, best = Some (i0, b) -> (b <? x)%float = true)
           /\ (forall j y, (j, y) ∈ pre -> is_nan y = false -> (y <? x)%float = true)
           /\ (forall j y, (j, y) ∈ post -> is_nan y = false -> (y <=? x)%float = true)).
Proof.
  induction l as [|[j y] l IH]; intros best i Hbest; cbn [idxmax_from].
  - destruct best as [[i0 b]|]; [| discriminate].
    intros [= <-]. left. exists b. split; [reflexivity |].
    intros j y Hin. inversion Hin.
  - destruct (is_nan y) eqn:Ey.
    + (* a missing value is passed over *)
      intros H. destruct (IH best i Hbest H)
        as [(b & -> & Hle) | (pre & x & post & -> & Hx & Hb & Hpre & Hpost)].
      * left. exists b. split; [reflexivity |].
        intros j' y' Hin Hy'. apply elem_of_cons in Hin as [[= -> ->] | Hin];
          [congruence | eauto].
      * right. exists ((j, y) :: pre), x, post. repeat split; auto.
        intros j' y' Hin Hy'. apply elem_of_cons in Hin as [[= -> ->] | Hin];
          [congruence | eauto].
    + destruct best as [[i0 b]|].
      * assert (Hb : is_nan b = false) by eauto.
        destruct (b <? y)%float eqn:Eby.
        -- (* [y] beats the candidate *)
           intros H. destruct (IH (Some (j, y)) i) as
             [(b' & [= <- <-] & Hle) | (pre & x & post & -> & Hx & Hy & Hpre & Hpost)];
             [intros ? ? [= <- <-]; exact Ey | exact H | |].
           ++ right. exists [], y, l. repeat split; auto.
              ** intros ? ? [= <- <-]. exact Eby.
              ** intros j' y' Hin. inversion Hin.
           ++ right. exists ((j, y) :: pre), x, post.
              assert (Hyx : (y <? x)%float = true) by eauto.
              repeat split; auto.
              ** intros ? ? [= <- <-].
                 exact (float_le_lt_trans _ _ _ (float_lt_le _ _ Eby) Hyx).
              ** intros j' y' Hin Hy'.
                 apply elem_of_cons in Hin as [[= -> ->] | Hin]; eauto.
        -- (* the candidate stays *)
           assert (Hyb : (y <=? b)%float = true) by (apply float_le_total; auto).
           intros H. destruct (IH (Some (i0, b)) i Hbest H)
             as [(b' & [= <- <-] & Hle) | (pre & x & post & -> & Hx & Hbx & Hpre & Hpost)].
           ++ left. exists b. split; [reflexivity |].
              intros j' y' Hin Hy'.
              apply elem_of_cons in Hin as [[= -> ->] | Hin]; eauto.
           ++ right. exists ((j, y) :: pre), x, post. repeat split; auto.
              intros j' y' Hin Hy'.
              apply elem_of_cons in Hin as [[= -> ->] | Hin]; [| eauto].
              exact (float_le_lt_trans _ _ _ Hyb (Hbx _ _ eq_refl)).
      * (* the first number becomes the candidate *)
        intros H. destruct (IH (Some (j, y)) i) as
          [(b' & [= <- <-] & Hle) | (pre & x & post & -> & Hx & Hy & Hpre & Hpost)];
          [intros ? ? [= <- <-]; exact Ey | exact H | |].
        -- right. exists [], y, l. repeat split; auto.
           ++ intros ? ? [=].
           ++ intros j' y' Hin. inversion Hin.
        -- right. exists ((j, y) :: pre), x, post. repeat split; auto.
           ++ intros ? ? [=].
           ++ intros j' y' Hin Hy'.
              apply elem_of_cons in Hin as [[= -> ->] | Hin]; eauto.
Qed.

(** [idxmax] finds a label as soon as the group has a number. *)
Lemma idxmax_from_None (l : list (nat * float)) :
  forall best, idxmax_from best l = None ->
               best = None /\ forall j y, (j, y) ∈ l -> is_nan y = true.
Proof.
  induction l as [|[j y] l IH]; intros best; cbn [idxmax_from].
  - destruct best as [[? ?]|]; [discriminate |]. intros _. split; [reflexivity |].
    intros j y Hin. inversion Hin.
  - destruct (is_nan y) eqn:Ey.
    + intros H. destruct (IH _ H) as [-> Hl]. split; [reflexivity |].
      intros j' y' Hin. apply elem_of_cons in Hin as [[= -> ->] | Hin]; eauto.
    + destruct best as [[i0 b]|].
      * destruct (b <? y)%float; intros H; destruct (IH _ H) as [[=] _].
      * intros H. destruct (IH _ H) as [[=] _].
Qed.

End Idxmax.

Section GroupBest.
Variable key : Row.t -> string.

Lemma in_group_true k r :
  in_group key k r = true <-> Row.dataset r = k.1 /\ key r = k.2.
Proof. unfold in_group. now rewrite andb_true_iff, !String.eqb_eq. Qed.

Lemma group_values_from_elem_of n df k r :
  r ∈ df -> in_group key k r = true ->
  exists j, (j, Row.total_accuracy r) ∈ group_values_from n key df k.
Proof.
  revert n. induction df as [|r0 df IH]; intros n Hin Hg; [inversion Hin |].
  cbn [group_values_from]. apply elem_of_cons in Hin as [-> | Hin].
  - rewrite Hg. exists n. left.
  - destruct (IH (S n) Hin Hg) as [j Hj]. exists j.
    destruct (in_group key k r0); [now right | exact Hj].
Qed.

(** Where a label of the group sits in the table, and which rows of the
    group come before and after it. *)
Lemma group_values_from_split df k :
  forall n pre i x post,
    group_values_from n key df k = (pre ++ (i, x) :: post)%list ->
    exists df1 r df2,
      df = (df1 ++ r :: df2)%list
      /\ i = n + length df1
      /\ in_group key k r = true
      /\ x = Row.total_accuracy r
      /\ (forall r', r' ∈ df1 -> in_group key k r' = true ->
          exists j, (j, Row.total_accuracy r') ∈ pre)
      /\ (forall r', r' ∈ df2 -> in_group key k r' = true ->
          exists j, (j, Row.total_accuracy r') ∈ post).
Proof.
  induction df as [|r0 df IH]; intros n pre i x post; cbn [group_values_from].
  - intros H. now destruct pre.
  - destruct (in_group key k r0) eqn:Eg.
    + destruct pre as [|p pre]; cbn [app].
      * intros [= <- <- Hpost]. exists [], r0, df. cbn [app length].
        rewrite Nat.add_0_r. repeat split; auto.
        -- intros r' Hin. inversion Hin.
        -- intros r' Hin Hg. rewrite <- Hpost.
           now apply group_values_from_elem_of.
      * intros [= <- H]. destruct (IH _ _ _ _ _ H)
          as (df1 & r & df2 & -> & -> & Hg & -> & Hpre & Hpost).
        exists (r0 :: df1), r, df2. cbn [app length]. repeat split; auto; try lia.
        intros r' Hin Hg'. apply elem_of_cons in Hin as [-> | Hin].
        -- exists n. left.
        -- destruct (Hpre r' Hin Hg') as [j Hj]. exists j. now right.
    + intros H. destruct (IH _ _ _ _ _ H)
        as (df1 & r & df2 & -> & -> & Hg & -> & Hpre & Hpost).
      exists (r0 :: df1), r, df2. cbn [app length]. repeat split; auto; try lia.
      intros r' Hin Hg'. apply elem_of_cons in Hin as [-> | Hin];
        [congruence | auto].
Qed.

Lemma loc_middle (df1 df2 : list Row.t) r : loc (df1 ++ r :: df2) (length df1) = Ok r.
Proof. unfold loc. now rewrite list_lookup_middle. Qed.

(** The groups are the key pairs met in the table. *)
Lemma elem_of_group_keys df k :
  k ∈ group_keys key df <-> exists r, r ∈ df /\ k = (Row.dataset r, key r).
Proof.
  unfold group_keys. rewrite merge_sort_Permutation, elem_of_remove_dups, elem_of_map.
  split; intros (r & H1 & H2); eauto.
Qed.

Lemma for_each_Forall2 {A B : Type} (body : A -> result B) (Q : A -> B -> Prop) l :
  (forall a, a ∈ l -> exists b, body a = Ok b /\ Q a b) ->
  exists bs, for_each body l = Ok bs /\ Forall2 Q l bs.
Proof.
  induction l as [|a l IH]; intros H; cbn [for_each].
  - exists []. split; [reflexivity | constructor].
  - destruct (H a) as (b & Hb & HQ); [left |].
    destruct IH as (bs & Hbs & HF); [intros a' Ha'; apply H; now right |].
    exists (b :: bs). rewrite Hb, Hbs. split; [reflexivity | now constructor].
Qed.

(** One group: the label [idxmax] answers with is that of the first of
    the most accurate rows of the group, among those that are numbers. *)
Lemma group_idxmax_Some df k i :
  idxmax (group_values key df k) = Some i ->
  exists b,
    loc df i = Ok b
    /\ (Row.dataset b, key b) = k
    /\ first_number_max key df b.
Proof.
  intros E. unfold idxmax in E. apply idxmax_from_Some in E; [| intros ? ? [=]].
  destruct E as [(b & [=] & _) | (pre & x & post & Hsplit & Hx & _ & Hpre & Hpost)].
  apply group_values_from_split in Hsplit
    as (df1 & b & df2 & -> & -> & Hg & -> & Hdf1 & Hdf2).
  apply in_group_true in Hg as [Hd Hkey].
  exists b. split; [apply loc_middle |].
  split; [destruct k; cbn in Hd, Hkey; now rewrite Hd, Hkey |].
  exists df1, df2. split; [reflexivity |]. split; [exact Hx |]. split.
  - intros r Hr [Hrd Hrk] Hnum.
    destruct (Hdf1 r Hr) as [j Hj]; [apply in_group_true; split; congruence |].
    now apply (Hpre j).
  - intros r Hr [Hrd Hrk] Hnum.
    destruct (Hdf2 r Hr) as [j Hj]; [apply in_group_true; split; congruence |].
    now apply (Hpost j).
Qed.

Lemma first_number_max_numeric df b :
  numeric df -> first_number_max key df b -> first_max key df b.
Proof.
  unfold numeric. rewrite Forall_forall.
  intros Hnum (df1 & df2 & -> & _ & Hlt & Hle). exists df1, df2.
  split; [reflexivity |]. split.
  - intros r Hr Hsame. apply Hlt; auto. apply Hnum. rewrite elem_of_app. now left.
  - intros r Hr Hsame. apply Hle; auto. apply Hnum. rewrite elem_of_app. right. now right.
Qed.

(** One group, on a table of numbers: [idxmax] has an answer. *)
Lemma group_idxmax df k :
  numeric df ->
  k ∈ group_keys key df ->
  exists i b,
    idxmax (group_values key df k) = Some i
    /\ loc df i = Ok b
    /\ (Row.dataset b, key b) = k
    /\ first_max key df b.
Proof.
  intros Hnum Hk.
  destruct (idxmax (group_values key df k)) as [i|] eqn:E.
  - destruct (group_idxmax_Some df k i E) as (b & Hloc & Hb & Hfirst).
    exists i, b. split; [reflexivity |]. split; [exact Hloc |]. split; [exact Hb |].
    now apply first_number_max_numeric.
  - exfalso. apply elem_of_group_keys in Hk as (r0 & Hr0 & ->).
    unfold numeric in Hnum. rewrite Forall_forall in Hnum.
    assert (Hg0 : in_group key (Row.dataset r0, key r0) r0 = true)
      by (apply in_group_true; auto).
    unfold idxmax in E. apply idxmax_from_None in E as [_ Hall].
    destruct (group_values_from_elem_of 0 df _ r0 Hr0 Hg0) as [j Hj].
    apply Hall in Hj. rewrite (Hnum r0 Hr0) in Hj. discriminate.
Qed.

(** The whole pass, whatever the table holds: when it returns, it
    answers with one row per group, in the order of the sorted keys, each
    the first of the most accurate numbers of its group. *)
Lemma group_best_among_numbers df best :
  group_best key df = Ok best ->
  map (fun b => (Row.dataset b, key b)) best = group_keys key df
  /\ forall b, b ∈ best -> first_number_max key df b.
Proof.
  unfold group_best. intros H. apply bind_Ok in H as (u & _ & H).
  apply for_each_Ok in H.
  assert (HF : Forall2 (fun k b => (Row.dataset b, key b) = k
                                   /\ first_number_max key df b)
                       (group_keys key df) best).
  { eapply Forall2_impl; [exact H |]. intros k b Hkb. cbn beta in Hkb.
    destruct (idxmax (group_values key df k)) as [i|] eqn:E; [| discriminate].
    destruct (group_idxmax_Some df k i E) as (b' & Hloc & Hb').
    rewrite Hloc in Hkb. injection Hkb as <-. exact Hb'. }
  clear H. split.
  - induction HF as [|k b ks bs [Hk _] _ IH]; [reflexivity |].
    cbn [map]. now rewrite Hk, IH.
  - intros b Hb. induction HF as [|k b' ks bs [_ Hfm] _ IH]; [inversion Hb |].
    apply elem_of_cons in Hb as [-> | Hb]; auto.
Qed.

(** The whole pass, on a table of numbers with rows: it does not raise, answers
    with one row per group, in the order of the sorted keys, and each row
    is the first of the most accurate rows of its group. *)
Lemma group_best_spec df :
  numeric df -> df <> [] ->
  exists best,
    group_best key df = Ok best
    /\ map (fun b => (Row.dataset b, key b)) best = group_keys key df
    /\ forall b, b ∈ best -> first_max key df b.
Proof.
  intros Hnum Hne.
  destruct (for_each_Forall2
              (fun k => match idxmax (group_values key df k) with
                        | Some i => loc df i
                        | None => Raise (ValueError "idxmax of an all-NA group")
                        end)
              (fun k b => (Row.dataset b, key b) = k /\ first_max key df b)
              (group_keys key df)) as (best & Hbest & HF).
  { intros k Hk. destruct (group_idxmax df k Hnum Hk) as (i & b & -> & Hloc & Hb).
    exists b. split; [exact Hloc | exact Hb]. }
  exists best. split.
  { unfold group_best. rewrite (column_Ok df _ Hne). exact Hbest. }
  split.
  - clear Hbest. induction HF as [|k b ks bs [Hk _] _ IH]; [reflexivity |].
    cbn [map]. now rewrite Hk, IH.
  - intros b Hb. clear Hbest. induction HF as [|k b' ks bs [_ Hfm] _ IH];
      [inversion Hb |].
    apply elem_of_cons in Hb as [-> | Hb]; auto.
Qed.

(** The first of the most accurate rows is at least as accurate as every
    row of its group. *)
Lemma first_max_ge df b :
  numeric df -> first_max key df b ->
  forall r, r ∈ df -> same_group key r b ->
            (Row.total_accuracy r <=? Row.total_accuracy b)%float = true.
Proof.
  intros Hnum (df1 & df2 & -> & Hlt & Hle) r Hr Hsame.
  rewrite elem_of_app, elem_of_cons in Hr. destruct Hr as [Hr | [-> | Hr]].
  - apply float_lt_le. now apply Hlt.
  - apply float_le_refl. unfold numeric in Hnum. rewrite Forall_forall in Hnum.
    apply Hnum. rewrite elem_of_app. right. left.
  - now apply Hle.
Qed.

(** No group is left out: every row of the table has the selected row of
    its group in the answer. *)
Lemma group_best_covers df best :
  group_best key df = Ok best ->
  forall r, r ∈ df -> exists b, b ∈ best /\ same_group key r b.
Proof.
  intros H r Hr. destruct (group_best_among_numbers df best H) as [Hkeys _].
  assert (Hk : (Row.dataset r, key r) ∈ group_keys key df)
    by (apply elem_of_group_keys; eauto).
  rewrite <- Hkeys in Hk. apply elem_of_map in Hk as (b & [= Hd Hkey] & Hb).
  exists b. split; [exact Hb | split; assumption].
Qed.

(** No group is answered twice. *)
Lemma group_best_keys_NoDup df best :
  group_best key df = Ok best ->
  NoDup (map (fun b => (Row.dataset b, key b)) best).
Proof.
  intros H. destruct (group_best_among_numbers df best H) as [-> _].
  unfold group_keys. rewrite merge_sort_Permutation. apply NoDup_remove_dups.
Qed.

End GroupBest.

(** On the example table the first of the two tied gpt rows is kept, and
    the groups come out in the order of their keys. *)
Example family_best_example :
  (best ← family_best example_df; Ok (map Row.model best))
  = Ok ["claude-opus-4-20250514--thinking"; "gpt-4o"; "o4-mini"].
Proof. vm_compute. reflexivity. Qed.

Example company_best_example :
  (best ← company_best example_df; Ok (map Row.model best))
  = Ok ["claude-opus-4-20250514--thinking"; "gpt-4o"].
Proof. vm_compute. reflexivity. Qed.

(** C3. In both group-best passes (by (dataset, family) and by (dataset,
    company)), on a table with rows whose accuracies are numbers, one row
    is selected per group, and no group of the table is left out: every
    row of the table has a selected row of its own group, which is a row
    of the table at least as accurate as it, and no group is answered
    twice. The selected row's total_accuracy is greater than or equal to
    that of every row of its group, and among tied rows it is the first
    one of the table, as idxmax returns it: the rows of the group above
    it are strictly less accurate. *)
Theorem group_best_max (df : list Row.t) :
  numeric df -> df <> [] ->
  (exists best,
      family_best df = Ok best
      /\ map (fun b => (Row.dataset b, Row.family b)) best = group_keys Row.family df
      /\ (forall b, b ∈ best ->
           (forall r, r ∈ df -> same_group Row.family r b ->
                      (Row.total_accuracy r <=? Row.total_accuracy b)%float = true)
           /\ first_max Row.family df b)
      /\ (forall r, r ∈ df ->
           exists b, b ∈ best /\ b ∈ df /\ same_group Row.family r b
                     /\ (Row.total_accuracy r <=? Row.total_accuracy b)%float = true)
      /\ NoDup (map (fun b => (Row.dataset b, Row.family b)) best))
  /\ (exists best,
      company_best df = Ok best
      /\ map (fun b => (Row.dataset b, Row.company b)) best = group_keys Row.company df
      /\ (forall b, b ∈ best ->
           (forall r, r ∈ df -> same_group Row.company r b ->
                      (Row.total_accuracy r <=? Row.total_accuracy b)%float = true)
           /\ first_max Row.company df b)
      /\ (forall r, r ∈ df ->
           exists b, b ∈ best /\ b ∈ df /\ same_group Row.company r b
                     /\ (Row.total_accuracy r <=? Row.total_accuracy b)%float = true)
      /\ NoDup (map (fun b => (Row.dataset b, Row.company b)) best)).
Proof.
  intros Hnum Hne.
  assert (H : forall key,
             exists best,
               group_best key df = Ok best
               /\ map (fun b => (Row.dataset b, key b)) best = group_keys key df
               /\ (forall b, b ∈ best ->
                    (forall r, r ∈ df -> same_group key r b ->
                               (Row.total_accuracy r <=? Row.total_accuracy b)%float = true)
                    /\ first_max key df b)
               /\ (forall r, r ∈ df ->
                    exists b, b ∈ best /\ b ∈ df /\ same_group key r b
                              /\ (Row.total_accuracy r <=? Row.total_accuracy b)%float = true)
               /\ NoDup (map (fun b => (Row.dataset b, key b)) best)).
  { intros key.
    destruct (group_best_spec key df Hnum Hne) as (best & Hbest & Hkeys & Hfirst).
    assert (Hge : forall b, b ∈ best ->
                    forall r, r ∈ df -> same_group key r b ->
                      (Row.total_accuracy r <=? Row.total_accuracy b)%float = true).
    { intros b Hb. apply first_max_ge; [exact Hnum | now apply Hfirst]. }
    exists best. split; [exact Hbest |]. split; [exact Hkeys |]. split; [| split].
    - intros b Hb. split; [now apply Hge | now apply Hfirst].
    - intros r Hr. destruct (group_best_covers key df best Hbest r Hr) as (b & Hb & Hsame).
      exists b. split; [exact Hb |]. split; [| split; [exact Hsame | now apply (Hge b)]].
      destruct (Hfirst b Hb) as (df1 & df2 & -> & _).
      rewrite elem_of_app. right. left.
    - exact (group_best_keys_NoDup key df best Hbest). }
  split; [exact (H Row.family) | exact (H Row.company)].
Qed.

Lemma group_best_max_witness :
  numeric example_df
  /\ exists best,
      family_best example_df = Ok best
      /\ (forall b, b ∈ best ->
           forall r, r ∈ example_df -> same_group Row.family r b ->
                     (Row.total_accuracy r <=? Row.total_accuracy b)%float = true)
      /\ (forall r, r ∈ example_df ->
           exists b, b ∈ best /\ b ∈ example_df /\ same_group Row.family r b
                     /\ (Row.total_accuracy r <=? Row.total_accuracy b)%float = true).
Proof.
  assert (Hnum : numeric example_df) by (repeat constructor).
  split; [exact Hnum |].
  destruct (proj1 (group_best_max example_df Hnum ltac:(discriminate)))
    as (best & Hbest & _ & Hmax & Hcover & _).
  exists best. split; [exact Hbest |]. split; [| exact Hcover].
  intros b Hb. exact (proj1 (Hmax b Hb)).
Defined.

(** ** The claude-opus-4 pair on ca *)

Lemma elem_of_models_in_dataset df dataset r :
  r ∈ df -> Row.dataset r = dataset ->
  Str.remove "--thinking" (Row.model r) ∈ models_in_dataset df dataset.
Proof.
  intros Hr Hd. unfold models_in_dataset.
  rewrite elem_of_remove_dups. apply elem_of_map. exists r. split; [reflexivity |].
  apply list_elem_of_filter. split; [| exact Hr].
  rewrite Hd, String.eqb_refl. exact I.
Qed.

Lemma head_select_cons df dataset m r :
  head (select df dataset m) = Some r -> exists rest, select df dataset m = r :: rest.
Proof. destruct (select df dataset m) as [|r' rest]; [discriminate |]. intros [= ->]. eauto. Qed.

(** The row of the paired-improvement pass for claude-opus-4-20250514 on
    ca, whatever the loaded file holds for the base model. *)
Lemma opus_ca_row loaded eval_data df ca base :
  merge loaded = Ok eval_data ->
  results eval_data = Ok df ->
  loaded !! "ca" = Some ca ->
  dict_get "claude-opus-4-20250514" ca = Some base ->
  exists rows b,
    thinking_improvements df = Ok rows
    /\ get_total_accuracy base = Ok b
    /\ Imp.mk "ca" "claude-opus-4-20250514" b 0.54 (0.54 - b)
              (if (0 <? b)%float then ((0.54 - b) / b)%float else 0%float) ∈ rows.
Proof.
  intros Hmerge Hres Hca Hbase.
  apply merge_Ok in Hmerge as (sf & ca' & _ & Hca' & _ & Heval).
  rewrite Hca in Hca'. injection Hca' as <-.
  assert (Hin : "ca" ∈ datasets) by (unfold datasets; right; left).
  assert (Hb : dict_get "claude-opus-4-20250514" (dict_update ca thinking_ca) = Some base)
    by (rewrite dict_get_update; exact Hbase).
  assert (Ht : dict_get "claude-opus-4-20250514--thinking" (dict_update ca thinking_ca)
               = Some (metrics 50 26 1 0.52 0.02 0.54))
    by (rewrite dict_get_update; reflexivity).
  destruct (results_select _ _ _ _ _ _ Hres Hin Heval Hb) as (rb & Hhb & Hrb).
  destruct (results_select _ _ _ _ _ _ Hres Hin Heval Ht) as (rt & Hht & Hrt).
  apply result_row_Ok in Hrb as (e & m & ts & He & Hm & _ & ->).
  apply result_row_Ok in Hrt as (e' & m' & ts' & _ & _ & _ & ->).
  assert (Hne : df <> [])
    by (intros ->; apply head_elem_of, select_elem_of in Hhb as (Hhb & _); inversion Hhb).
  destruct (thinking_improvements_spec df Hne) as (rows & Hrows & Hmem).
  exists rows, (stored_or_sum base e m). split; [exact Hrows |].
  split; [apply get_total_accuracy_Ok; eauto |].
  apply Hmem. exists "ca", "claude-opus-4-20250514". eexists.
  split; [exact Hin |]. split; [| split; [apply improvement_of_spec |]].
  - apply head_elem_of, select_elem_of in Hhb as (Hhb & _ & _).
    exact (elem_of_models_in_dataset df "ca" _ Hhb eq_refl).
  - apply head_select_cons in Hhb as [restb ->].
    change ("claude-opus-4-20250514" ++ "--thinking")
      with "claude-opus-4-20250514--thinking".
    apply head_select_cons in Hht as [restt ->].
    cbn. left.
Qed.

(** C10, as the code has it. For a loaded file with a claude-opus-4-20250514
    record on ca, the paired-improvement pass yields for that pair the
    improvement 0.54 - b, where b is the total accuracy of the loaded
    record; it is strictly positive exactly when b < 0.54. *)
Theorem opus_ca_improvement loaded eval_data df ca base :
  merge loaded = Ok eval_data ->
  results eval_data = Ok df ->
  loaded !! "ca" = Some ca ->
  dict_get "claude-opus-4-20250514" ca = Some base ->
  exists rows b row,
    thinking_improvements df = Ok rows
    /\ get_total_accuracy base = Ok b
    /\ row = Imp.mk "ca" "claude-opus-4-20250514" b 0.54 (0.54 - b)
                    (if (0 <? b)%float then ((0.54 - b) / b)%float else 0%float)
    /\ row ∈ rows
    /\ (forall r, r ∈ rows -> Imp.dataset r = "ca" ->
                  Imp.base_model r = "claude-opus-4-20250514" -> r = row)
    /\ (0 <? Imp.improvement row)%float = (b <? 0.54)%float.
Proof.
  intros Hmerge Hres Hca Hbase.
  destruct (opus_ca_row _ _ _ _ _ Hmerge Hres Hca Hbase) as (rows & b & Hrows & Hb & Hin).
  exists rows, b. eexists. split; [exact Hrows |]. split; [exact Hb |].
  split; [reflexivity |]. split; [exact Hin |]. split.
  - intros r Hr Hd Hm.
    destruct (thinking_improvements_spec df (thinking_improvements_nonempty _ _ Hrows))
      as (rows' & Hrows' & Hmem).
    rewrite Hrows in Hrows'. injection Hrows' as <-.
    apply Hmem in Hin as (d1 & m1 & rs1 & _ & _ & Hrs1 & Hin1).
    apply Hmem in Hr as (d2 & m2 & rs2 & _ & _ & Hrs2 & Hin2).
    rewrite improvement_of_spec in Hrs1, Hrs2.
    injection Hrs1 as <-. injection Hrs2 as <-.
    destruct (select df d1 m1) as [|b1 ?] eqn:E1; [inversion Hin1 |].
    destruct (select df d1 (m1 ++ "--thinking")) as [|t1 ?] eqn:E1'; [inversion Hin1 |].
    destruct (select df d2 m2) as [|b2 ?] eqn:E2; [inversion Hin2 |].
    destruct (select df d2 (m2 ++ "--thinking")) as [|t2 ?] eqn:E2'; [inversion Hin2 |].
    apply list_elem_of_singleton in Hin1, Hin2. subst r. cbn in Hd, Hm. subst d2 m2.
    injection Hin1 as <- <- Hb1 Ht1 _ _.
    rewrite E1 in E2. rewrite E1' in E2'. injection E2 as <- _. injection E2' as <- _.
    now rewrite <- Hb1, <- Ht1.
  - cbn [Imp.improvement]. apply float_sub_pos.
Qed.

Lemma opus_ca_improvement_witness :
  exists eval_data df rows b row,
    merge example_loaded = Ok eval_data
    /\ results eval_data = Ok df
    /\ thinking_improvements df = Ok rows
    /\ row ∈ rows
    /\ Imp.base_accuracy row = b
    /\ (0 <? Imp.improvement row)%float = (b <? 0.54)%float.
Proof.
  eexists _, _.
  destruct (opus_ca_improvement example_loaded _ _ _ _ eq_refl eq_refl eq_refl eq_refl)
    as (rows & b & row & Hrows & Hb & Hrow & Hin & _ & Hpos).
  exists rows, b, row. split; [reflexivity |]. split; [reflexivity |].
  split; [exact Hrows |]. split; [exact Hin |]. split; [now rewrite Hrow | exact Hpos].
Defined.

(** C10, as the specification has it, fails: with the base model at 0.6
    on ca the pass yields a negative improvement for the pair. *)
Lemma opus_ca_improvement_not_positive :
  exists ca base eval_data df row,
    strong_base_loaded !! "ca" = Some ca
    /\ dict_get "claude-opus-4-20250514" ca = Some base
    /\ merge strong_base_loaded = Ok eval_data
    /\ results eval_data = Ok df
    /\ thinking_improvements df = Ok [row]
    /\ Imp.dataset row = "ca"
    /\ Imp.base_model row = "claude-opus-4-20250514"
    /\ Imp.thinking_accuracy row = 0.54%float
    /\ Imp.improvement row = (0.54 - 0.6)%float
    /\ (0 <? Imp.improvement row)%float = false.
Proof.
  eexists _, _, _, _, _.
  split; [reflexivity |]. split; [reflexivity |]. split; [reflexivity |].
  split; [reflexivity |]. split; [vm_compute; reflexivity |].
  repeat split.
Qed.

(** * Further properties *)

(** ** More on the classifier *)

Lemma lower_char_idem c : Str.lower_char (Str.lower_char c) = Str.lower_char c.
Proof. destruct c as [[] [] [] [] [] [] [] []]; reflexivity. Qed.

Lemma lower_idem s : Str.lower (Str.lower s) = Str.lower s.
Proof.
  induction s as [|c s IH]; [reflexivity |].
  cbn [Str.lower]. now rewrite lower_char_idem, IH.
Qed.

(** X1. The classifier and the complexity score read a name through its
    lower-cased form only: two names that differ in letter case alone
    get the same family, company, thinking flag and complexity, and
    lower-casing a name first changes nothing. The generation does not:
    it tests the name as written, so O3-MINI and o3-mini are filed under
    different generations. *)
Theorem classification_ignores_case :
  (forall a b, Str.lower a = Str.lower b ->
               categorize_model a = categorize_model b
               /\ get_complexity a = get_complexity b)
  /\ (forall a, categorize_model (Str.lower a) = categorize_model a
                /\ get_complexity (Str.lower a) = get_complexity a)
  /\ (exists a b, Str.lower a = Str.lower b /\ get_generation a <> get_generation b).
Proof.
  assert (H : forall a b, Str.lower a = Str.lower b ->
                          categorize_model a = categorize_model b
                          /\ get_complexity a = get_complexity b).
  { intros a b Hab. unfold categorize_model, get_complexity. now rewrite Hab. }
  split; [exact H |]. split.
  - intros a. apply H, lower_idem.
  - exists "O3-MINI", "o3-mini". split; [reflexivity | discriminate].
Qed.

Lemma classification_ignores_case_witness :
  categorize_model "Claude-OPUS-4" = categorize_model "claude-opus-4"
  /\ get_complexity "Claude-OPUS-4" = get_complexity "claude-opus-4".
Proof. exact (proj1 classification_ignores_case "Claude-OPUS-4" "claude-opus-4" eq_refl). Defined.

Ltac contains_cases s :=
  repeat match goal with
         | |- context [Str.contains ?k s] => destruct (Str.contains k s)
         | H : context [Str.contains ?k s] |- _ => destruct (Str.contains k s)
         end.

(** X2. The (family, company) pairs of the classifier are the twelve of
    [family_company_pairs] and every one of them is the answer for some
    name. The two chains of tests rank their keywords differently, so a
    name with two keywords can get a family and a company that do not
    belong together: grok with google, deepseek with google, llama with
    moonshot. *)
Theorem family_company_table :
  (forall name,
      In ((categorize_model name).1.1, (categorize_model name).1.2) family_company_pairs)
  /\ (forall pair, In pair family_company_pairs ->
                   exists name,
                     ((categorize_model name).1.1, (categorize_model name).1.2) = pair).
Proof.
  split.
  - intros name. rewrite family_spec, company_spec. cbv zeta.
    contains_cases (Str.lower name); cbn; tauto.
  - intros pair Hin. unfold family_company_pairs in Hin. cbn [In] in Hin.
    repeat destruct Hin as [<- | Hin];
      [ exists "o3" | exists "gpt" | exists "claude" | exists "grok"
      | exists "grok-gemini" | exists "deepseek" | exists "deepseek-gemini"
      | exists "gemini" | exists "llama" | exists "llama-kimi" | exists "kimi"
      | exists "" | ]; try reflexivity.
    contradiction.
Qed.

Lemma family_company_table_witness :
  exists name, ((categorize_model name).1.1, (categorize_model name).1.2) = ("grok", "google").
Proof.
  apply (proj2 family_company_table). unfold family_company_pairs. cbn. tauto.
Defined.

(** X3. Every name filed under the family grok or gemini, or under the
    company x-ai or google, is flagged as a thinking model. *)
Theorem always_reasoning_families (name : string) :
  (categorize_model name).1.1 = "grok" \/ (categorize_model name).1.1 = "gemini"
  \/ (categorize_model name).1.2 = "x-ai" \/ (categorize_model name).1.2 = "google" ->
  (categorize_model name).2 = true.
Proof.
  rewrite family_spec, company_spec. cbv zeta. intros H.
  apply is_thinking_spec.
  destruct (Str.contains "grok" (Str.lower name)) eqn:Eg.
  { apply contains_Substring in Eg. tauto. }
  destruct (Str.contains "gemini" (Str.lower name)) eqn:Em.
  { apply contains_Substring in Em. tauto. }
  exfalso. contains_cases (Str.lower name); cbn in H;
    destruct H as [H | [H | [H | H]]]; discriminate.
Qed.

Lemma always_reasoning_families_witness :
  (categorize_model "Grok-3-beta").2 = true.
Proof. apply always_reasoning_families. left. reflexivity. Defined.

(** ** Complexity and generation *)

(** The loop answers with the first key found in the name. *)
Lemma complexity_from_first (pre post : pydict Z) k v s :
  Forall (fun kv => ~ Str.Substring kv.1 s) pre ->
  Str.Substring k s ->
  complexity_from (pre ++ (k, v) :: post) s = v.
Proof.
  intros Hpre Hk. induction Hpre as [|[k' v'] pre Hk' _ IH]; cbn [app complexity_from].
  - apply contains_Substring in Hk. now rewrite Hk.
  - apply contains_false in Hk'. cbn [fst] in Hk'. now rewrite Hk'.
Qed.

Lemma complexity_from_none (items : pydict Z) s :
  Forall (fun kv => ~ Str.Substring kv.1 s) items ->
  complexity_from items s = 3%Z.
Proof.
  induction 1 as [|[k' v'] items Hk' _ IH]; cbn [complexity_from]; [reflexivity |].
  apply contains_false in Hk'. cbn [fst] in Hk'. now rewrite Hk'.
Qed.

(** X4. The complexity of a name is the value of the first key of
    [complexity_order], in insertion order, found in the lower-cased
    name; it is the default 3 when no key is found; and it always lies
    between 1 and 7. *)
Theorem get_complexity_first_match (name : string) :
  (forall pre k v post,
      complexity_order = (pre ++ (k, v) :: post)%list ->
      Forall (fun kv => ~ Str.Substring kv.1 (Str.lower name)) pre ->
      Str.Substring k (Str.lower name) ->
      get_complexity name = v)
  /\ (Forall (fun kv => ~ Str.Substring kv.1 (Str.lower name)) complexity_order ->
      get_complexity name = 3%Z)
  /\ (1 <= get_complexity name <= 7)%Z.
Proof.
  split; [| split].
  - intros pre k v post Heq Hpre Hk. unfold get_complexity. rewrite Heq.
    now apply complexity_from_first.
  - intros H. now apply complexity_from_none.
  - unfold get_complexity, complexity_order. cbn [complexity_from].
    repeat match goal with
           | |- context [Str.contains ?k ?s] => destruct (Str.contains k s)
           end; lia.
Qed.

Lemma get_complexity_first_match_witness :
  get_complexity "claude-opus-4-20250514" = 5%Z.
Proof.
  refine (proj1 (get_complexity_first_match "claude-opus-4-20250514")
            [("haiku", 1); ("mini", 2); ("sonnet", 3); ("gpt-4", 4)]%Z "opus" 5%Z
            [("turbo", 4); ("o3", 6); ("o4", 7); ("grok", 5); ("gemini", 4)]%Z
            eq_refl _ _).
  - repeat constructor; apply contains_false; reflexivity.
  - exists "claude-", "-4-20250514". reflexivity.
Defined.

Lemma append_assoc (a b c : string) : (a ++ b) ++ c = a ++ (b ++ c).
Proof.
  induction a as [|x a IH]; [reflexivity |].
  change (String x ((a ++ b) ++ c) = String x (a ++ b ++ c)).
  now rewrite IH.
Qed.

Lemma Substring_trans a b s : Str.Substring a b -> Str.Substring b s -> Str.Substring a s.
Proof.
  intros [p1 [q1 ->]] [p2 [q2 ->]]. exists (p2 ++ p1), (q1 ++ q2).
  now rewrite !append_assoc.
Qed.

(** X5. 'mini' comes second in [complexity_order], so it decides for
    every name that has it and no 'haiku': the o3 and o4 minis get 2,
    not 6 or 7, and so does every gemini, since 'gemini' contains 'mini':
    the table's own entry for gemini is never reached. *)
Theorem mini_shadows_gemini (name : string) :
  (Str.Substring "mini" (Str.lower name) ->
   get_complexity name = (if Str.contains "haiku" (Str.lower name) then 1 else 2)%Z)
  /\ (Str.Substring "gemini" (Str.lower name) ->
      get_complexity name = (if Str.contains "haiku" (Str.lower name) then 1 else 2)%Z).
Proof.
  assert (H : Str.Substring "mini" (Str.lower name) ->
              get_complexity name
              = (if Str.contains "haiku" (Str.lower name) then 1 else 2)%Z).
  { intros H. apply contains_Substring in H.
    unfold get_complexity, complexity_order. cbn [complexity_from].
    now rewrite H. }
  split; [exact H |]. intros Hg. apply H.
  apply (Substring_trans "mini" "gemini"); [| exact Hg].
  exists "ge", "". reflexivity.
Qed.

Lemma mini_shadows_gemini_witness :
  get_complexity "o3-mini-2025-01-31" = 2%Z /\ get_complexity "Gemini-2_5-Pro" = 2%Z.
Proof.
  split.
  - apply (proj1 (mini_shadows_gemini "o3-mini-2025-01-31")).
    exists "o3-", "-2025-01-31". reflexivity.
  - apply (proj2 (mini_shadows_gemini "Gemini-2_5-Pro")).
    exists "", "-2_5-pro". reflexivity.
Defined.

(** X6. A name that contains o3 or o4 as written is of generation 2025,
    of the family o-series and of the company openai. *)
Theorem o_series_generation (name : string) :
  Str.Substring "o3" name \/ Str.Substring "o4" name ->
  get_generation name = "2025"
  /\ (categorize_model name).1.1 = "o-series"
  /\ (categorize_model name).1.2 = "openai".
Proof.
  intros H.
  assert (Hl : Str.contains "o3" (Str.lower name) || Str.contains "o4" (Str.lower name) = true).
  { rewrite orb_true_iff, !contains_Substring.
    destruct H as [H | H]; [left | right]; exact (Substring_lower _ _ H). }
  assert (Hn : Str.contains "o3" name || Str.contains "o4" name = true)
    by (rewrite orb_true_iff, !contains_Substring; exact H).
  split; [| split].
  - unfold get_generation. rewrite <- !orb_assoc, (orb_assoc (Str.contains "o3" name)), Hn.
    now rewrite orb_true_r.
  - rewrite family_spec. cbv zeta. now rewrite Hl.
  - rewrite company_spec. cbv zeta. rewrite Hl. now rewrite orb_true_r.
Qed.

Lemma o_series_generation_witness :
  get_generation "o4-mini" = "2025"
  /\ (categorize_model "o4-mini").1.1 = "o-series"
  /\ (categorize_model "o4-mini").1.2 = "openai".
Proof.
  apply o_series_generation. right. exists "", "-mini". reflexivity.
Defined.

(** ** Stripping the thinking marker *)

Lemma Substring_cons sub c s : Str.Substring sub s -> Str.Substring sub (String c s).
Proof. intros [pre [post ->]]. exists (String c pre), post. reflexivity. Qed.

Lemma remove_aux_id old s : ~ Str.Substring old s -> Str.remove_aux old 0 s = s.
Proof.
  induction s as [|c s IH]; intros Hno; [reflexivity |].
  cbn [Str.remove_aux].
  destruct (String.prefix old (String c s)) eqn:E.
  - exfalso. apply Hno, Prefix_Substring, prefix_Prefix. exact E.
  - rewrite IH; [reflexivity |]. intros H. apply Hno. now apply Substring_cons.
Qed.

Lemma append_cons c s t : String c s ++ t = String c (s ++ t).
Proof. reflexivity. Qed.

(** The marker does not overlap itself: an occurrence in [m ++ marker]
    that starts inside [m] lies in [m]. *)
Lemma marker_no_straddle c m :
  ~ Str.Substring "--thinking" (String c m) ->
  String.prefix "--thinking" (String c m ++ "--thinking") = false.
Proof.
  intros Hno. destruct (String.prefix _ _) eqn:H; [| reflexivity]. exfalso.
  rewrite append_cons in H. cbn [String.prefix] in H.
  destruct (ascii_dec _ c) as [<-|]; [| discriminate].
  do 9 (destruct m as [|c m];
        [ vm_compute in H; discriminate H |];
        rewrite append_cons in H; cbn [String.prefix] in H;
        destruct (ascii_dec _ c) as [<-|]; [| discriminate]).
  apply Hno. exists "", m. reflexivity.
Qed.

Lemma remove_aux_marker m :
  ~ Str.Substring "--thinking" m ->
  Str.remove_aux "--thinking" 0 (m ++ "--thinking") = m.
Proof.
  induction m as [|c m IH]; intros Hno; [reflexivity |].
  pose proof (marker_no_straddle c m Hno) as Hp.
  rewrite append_cons in *. cbn [Str.remove_aux]. rewrite Hp.
  rewrite IH; [reflexivity |]. intros H. apply Hno. now apply Substring_cons.
Qed.

(** X13. For a model name without the marker --thinking, removing the
    marker from the name of its thinking version gives the name back,
    and removing it from the name itself changes nothing: a base model
    and its thinking version are filed under the same base name. *)
Theorem thinking_name_round_trip (m : string) :
  ~ Str.Substring "--thinking" m ->
  Str.remove "--thinking" (m ++ "--thinking") = m
  /\ Str.remove "--thinking" m = m.
Proof.
  intros Hno. split.
  - now apply remove_aux_marker.
  - now apply remove_aux_id.
Qed.

Lemma thinking_name_round_trip_witness :
  Str.remove "--thinking" ("claude-opus-4-20250514" ++ "--thinking") = "claude-opus-4-20250514"
  /\ Str.remove "--thinking" "claude-opus-4-20250514" = "claude-opus-4-20250514".
Proof.
  apply thinking_name_round_trip. apply contains_false. reflexivity.
Defined.

(** ** More on the merge *)

Lemma filter_ext_elem_of {A : Type} (P Q : A -> Prop)
    `{!forall x, Decision (P x)} `{!forall x, Decision (Q x)} (l : list A) :
  (forall x, x ∈ l -> P x <-> Q x) -> filter P l = filter Q l.
Proof.
  induction l as [|a l IH]; intros HPQ; [reflexivity |].
  rewrite !filter_cons.
  assert (Ha : P a <-> Q a) by (apply HPQ; left).
  rewrite IH by (intros x Hx; apply HPQ; now right).
  destruct (decide (P a)), (decide (Q a)); tauto || reflexivity.
Qed.

Section UpdateOrder.
Context {V : Type}.
Implicit Types (d t : pydict V) (k : string) (v : V).

Lemma dict_get_None k d : dict_get k d = None <-> k ∉ d.*1.
Proof.
  induction d as [|[k' v'] d IH]; cbn [dict_get fmap list_fmap fst].
  - split; [intros _ H; inversion H | reflexivity].
  - rewrite not_elem_of_cons. destruct (String.eqb_spec k k') as [->|Hne].
    + split; [discriminate | intros [H _]; contradiction].
    + rewrite IH. tauto.
Qed.

Lemma dict_get_Some_elem_of k v d : dict_get k d = Some v -> (k, v) ∈ d.
Proof.
  induction d as [|[k' v'] d IH]; cbn [dict_get]; [discriminate |].
  destruct (String.eqb_spec k k') as [->|Hne].
  - intros [= ->]. left.
  - intros H. right. now apply IH.
Qed.

(** With unique keys, every item is what a lookup of its key finds. *)
Lemma dict_get_NoDup k v d : NoDup d.*1 -> (k, v) ∈ d -> dict_get k d = Some v.
Proof.
  induction d as [|[k' v'] d IH]; cbn [dict_get fmap list_fmap fst]; intros Hnd Hin.
  - inversion Hin.
  - apply NoDup_cons in Hnd as [Hk' Hnd].
    apply elem_of_cons in Hin as [[= -> ->] | Hin].
    + now rewrite String.eqb_refl.
    + destruct (String.eqb_spec k k') as [->|Hne]; [| now apply IH].
      exfalso. apply Hk'. apply list_elem_of_fmap. exists (k', v). auto.
Qed.

Lemma dict_get_reverse k t : NoDup t.*1 -> dict_get k (reverse t) = dict_get k t.
Proof.
  induction t as [|[k' v'] t IH]; [reflexivity |].
  cbn [fmap list_fmap fst]. intros Hnd. apply NoDup_cons in Hnd as [Hk' Hnd].
  rewrite reverse_cons, dict_get_app, IH by assumption. cbn [dict_get].
  destruct (String.eqb_spec k k') as [->|Hne].
  - apply dict_get_None in Hk'. now rewrite Hk'.
  - now destruct (dict_get k t).
Qed.

Lemma dict_set_id k v d : dict_get k d = Some v -> dict_set k v d = d.
Proof.
  induction d as [|[k' v'] d IH]; cbn [dict_get dict_set]; [discriminate |].
  destruct (String.eqb_spec k k') as [->|Hne].
  - now intros [= ->].
  - intros H. now rewrite IH.
Qed.

Lemma dict_update_cons d k v t :
  dict_update d ((k, v) :: t) = dict_update (dict_set k v d) t.
Proof. reflexivity. Qed.

Lemma dict_update_id d t :
  (forall k v, (k, v) ∈ t -> dict_get k d = Some v) -> dict_update d t = d.
Proof.
  induction t as [|[k v] t IH]; intros H; [reflexivity |].
  rewrite dict_update_cons, dict_set_id by (apply H; left).
  apply IH. intros k' v' Hin. apply H. now right.
Qed.

(** Updating twice with the same block is updating once. *)
Lemma dict_update_idem d t :
  NoDup t.*1 -> dict_update (dict_update d t) t = dict_update d t.
Proof.
  intros Hnd. apply dict_update_id. intros k v Hin.
  rewrite dict_get_update, dict_get_reverse by assumption.
  now rewrite (dict_get_NoDup k v t Hnd Hin).
Qed.

(** The keys after an update: those of [d], in place, then the new ones
    in the order of [t]. *)
Lemma dict_update_keys d t :
  NoDup t.*1 ->
  (dict_update d t).*1 = (d.*1 ++ filter (fun k => k ∉ d.*1) t.*1)%list.
Proof.
  revert d. induction t as [|[k v] t IH]; intros d Hnd.
  - cbn. now rewrite app_nil_r.
  - cbn [fmap list_fmap fst] in Hnd. apply NoDup_cons in Hnd as [Hk Hnd].
    rewrite dict_update_cons, IH, dict_set_keys by assumption.
    cbn [fmap list_fmap fst].
    destruct (dict_get k d) as [v0|] eqn:E.
    + rewrite filter_cons_False; [reflexivity |].
      intros Hn. apply dict_get_None in Hn. congruence.
    + apply dict_get_None in E. rewrite filter_cons_True by assumption.
      rewrite <- app_assoc. cbn [app]. f_equal. f_equal.
      apply filter_ext_elem_of. intros k' Hk'.
      rewrite not_elem_of_app, list_elem_of_singleton.
      split; [tauto |]. intros H. split; [exact H | congruence].
Qed.

End UpdateOrder.

Lemma thinking_sf_NoDup : NoDup thinking_sf.*1.
Proof. apply (bool_decide_unpack _). vm_compute. exact I. Qed.

Lemma thinking_ca_NoDup : NoDup thinking_ca.*1.
Proof. apply (bool_decide_unpack _). vm_compute. exact I. Qed.

Lemma thinking_results_NoDup dataset t :
  thinking_results !! dataset = Some t -> NoDup t.*1.
Proof.
  intros H.
  destruct (decide (dataset = "sf")) as [->|Hsf].
  { rewrite thinking_results_sf in H. injection H as <-. apply thinking_sf_NoDup. }
  destruct (decide (dataset = "ca")) as [->|Hca].
  { rewrite thinking_results_ca in H. injection H as <-. apply thinking_ca_NoDup. }
  unfold thinking_results in H.
  rewrite lookup_insert_ne, lookup_singleton_ne in H by congruence. discriminate.
Qed.

(** What the merge does to one dataset and to the rest of the file. *)
Lemma merge_dataset_shape loaded eval_data :
  merge loaded = Ok eval_data ->
  (forall key, key ∉ datasets -> eval_data !! key = loaded !! key)
  /\ forall dataset, dataset ∈ datasets ->
       exists d t,
         loaded !! dataset = Some d
         /\ thinking_results !! dataset = Some t
         /\ eval_data !! dataset = Some (dict_update d t).
Proof.
  rewrite merge_spec.
  destruct (loaded !! "sf") as [sf|] eqn:Esf; [| discriminate].
  destruct (loaded !! "ca") as [ca|] eqn:Eca; [| discriminate].
  intros [= <-]. split.
  - intros key Hkey. unfold datasets in Hkey.
    rewrite !not_elem_of_cons in Hkey. destruct Hkey as (H1 & H2 & _).
    now rewrite !lookup_insert_ne by congruence.
  - intros dataset Hin. unfold datasets in Hin.
    apply elem_of_cons in Hin as [-> | Hin].
    + exists sf, thinking_sf. split; [exact Esf |]. split; [reflexivity |].
      rewrite lookup_insert_ne by discriminate. apply lookup_insert_eq.
    + apply list_elem_of_singleton in Hin as ->.
      exists ca, thinking_ca. split; [exact Eca |]. split; [reflexivity |].
      apply lookup_insert_eq.
Qed.

(** X7. After the merge, a dataset's dictionary answers a model name
    with the record of the supplemental block when the block has that
    name, whatever the loaded file held for it, and with the loaded
    record otherwise; the keys of the file other than sf and ca are left
    as they were. *)
Theorem merge_block_wins loaded eval_data :
  merge loaded = Ok eval_data ->
  (forall key, key ∉ datasets -> eval_data !! key = loaded !! key)
  /\ forall dataset, dataset ∈ datasets ->
       exists d t m,
         loaded !! dataset = Some d
         /\ thinking_results !! dataset = Some t
         /\ eval_data !! dataset = Some m
         /\ forall model,
              dict_get model m =
              match dict_get model t with
              | Some data => Some data
              | None => dict_get model d
              end.
Proof.
  intros H. apply merge_dataset_shape in H as [Hrest Hds]. split; [exact Hrest |].
  intros dataset Hin. destruct (Hds dataset Hin) as (d & t & Hd & Ht & Hm).
  exists d, t, (dict_update d t). repeat split; auto.
  intros model. rewrite dict_get_update, dict_get_reverse; [reflexivity |].
  exact (thinking_results_NoDup _ _ Ht).
Qed.

Lemma merge_block_wins_witness :
  exists eval_data,
    merge example_loaded = Ok eval_data
    /\ (forall key, key ∉ datasets -> eval_data !! key = example_loaded !! key)
    /\ forall dataset, dataset ∈ datasets ->
         exists d t m,
           example_loaded !! dataset = Some d
           /\ thinking_results !! dataset = Some t
           /\ eval_data !! dataset = Some m
           /\ forall model,
                dict_get model m =
                match dict_get model t with
                | Some data => Some data
                | None => dict_get model d
                end.
Proof.
  eexists. split; [reflexivity |].
  exact (merge_block_wins example_loaded _ eq_refl).
Defined.

(** X8. The merge keeps the loaded models in their order and place and
    appends the supplemental models the file did not have, in the order
    of the block. *)
Theorem merge_keeps_order loaded eval_data :
  merge loaded = Ok eval_data ->
  forall dataset, dataset ∈ datasets ->
    exists d t m,
      loaded !! dataset = Some d
      /\ thinking_results !! dataset = Some t
      /\ eval_data !! dataset = Some m
      /\ m.*1 = (d.*1 ++ filter (fun model => model ∉ d.*1) t.*1)%list.
Proof.
  intros H dataset Hin. apply merge_dataset_shape in H as [_ Hds].
  destruct (Hds dataset Hin) as (d & t & Hd & Ht & Hm).
  exists d, t, (dict_update d t). repeat split; auto.
  apply dict_update_keys. exact (thinking_results_NoDup _ _ Ht).
Qed.

Lemma merge_keeps_order_witness :
  exists eval_data m,
    merge example_loaded = Ok eval_data
    /\ eval_data !! "sf" = Some m
    /\ m.*1 = [ "o4-mini"; "claude-opus-4-20250514"; "gpt-4o";
                "claude-3-7-sonnet-20250219--thinking";
                "claude-opus-4-20250514--thinking";
                "claude-sonnet-4-20250514--thinking" ].
Proof.
  eexists.
  destruct (merge_keeps_order example_loaded _ eq_refl "sf" ltac:(left))
    as (d & t & m & Hd & Ht & Hm & Hkeys).
  exists m. split; [reflexivity |]. split; [exact Hm |].
  rewrite Hkeys. injection Hd as <-. injection Ht as <-. reflexivity.
Defined.

(** X9. Merging twice is merging once: on data that already went through
    the merge, the merge succeeds and changes nothing. *)
Theorem merge_idempotent loaded eval_data :
  merge loaded = Ok eval_data -> merge eval_data = Ok eval_data.
Proof.
  intros H. apply merge_Ok in H as (sf & ca & _ & _ & Hsf & Hca).
  rewrite merge_spec, Hsf, Hca.
  rewrite (dict_update_idem _ _ thinking_sf_NoDup), (dict_update_idem _ _ thinking_ca_NoDup).
  f_equal. rewrite (insert_id _ _ _ Hsf). apply insert_id. exact Hca.
Qed.

Lemma merge_idempotent_witness :
  exists eval_data,
    merge example_loaded = Ok eval_data /\ merge eval_data = Ok eval_data.
Proof.
  eexists. split; [reflexivity |].
  exact (merge_idempotent example_loaded _ eq_refl).
Defined.

(** ** When the table can be built *)

Lemma for_each_Raise {A B : Type} (body : A -> result B) (l : list A) (e : pyerr) :
  for_each body l = Raise e -> exists a, a ∈ l /\ body a = Raise e.
Proof.
  induction l as [|a l IH]; cbn [for_each]; [discriminate |].
  destruct (body a) as [b|e'] eqn:Ea; cbn.
  - destruct (for_each body l) as [bs|e'] eqn:El; cbn; [discriminate |].
    intros [= ->]. destruct (IH eq_refl) as (a' & Hin & Ha').
    exists a'. split; [now right | exact Ha'].
  - intros [= ->]. exists a. split; [left | exact Ea].
Qed.

Lemma for_each_succeeds {A B : Type} (body : A -> result B) (l : list A) :
  (exists bs, for_each body l = Ok bs) <-> Forall (fun a => exists b, body a = Ok b) l.
Proof.
  split.
  - intros [bs H]. apply for_each_Ok in H. induction H; constructor; eauto.
  - intros H. rewrite Forall_forall in H.
    destruct (for_each_Forall2 body (fun _ _ => True) l) as (bs & Hbs & _); [| eauto].
    intros a Ha. destruct (H a Ha) as [b Hb]. eauto.
Qed.

Lemma result_row_succeeds dataset model data :
  (exists r, result_row dataset (model, data) = Ok r) <-> complete_record data.
Proof.
  unfold complete_record, is_Some. split.
  - intros [r H]. apply result_row_Ok in H as (e & m & ts & He & Hm & Hts & _).
    repeat split; eauto.
  - intros ([e He] & [m Hm] & [ts Hts]). eexists. apply result_row_Ok. eauto 10.
Qed.

Lemma getitem_Raise {V : Type} (d : gmap string V) k e :
  getitem d k = Raise e -> e = KeyError k /\ d !! k = None.
Proof. unfold getitem. destruct (d !! k); [discriminate |]. now intros [= <-]. Qed.

Lemma bind_Raise_inv {A B : Type} (m : result A) (f : A -> result B) e :
  m ≫= f = Raise e -> m = Raise e \/ exists a, m = Ok a /\ f a = Raise e.
Proof. destruct m as [a|e']; cbn; [eauto | intros [= ->]; now left]. Qed.

Lemma get_total_accuracy_Raise data e :
  get_total_accuracy data = Raise e ->
  exists k, e = KeyError k /\ k ∈ row_fields /\ data !! k = None.
Proof.
  unfold get_total_accuracy, row_fields. intros H.
  apply bind_Raise_inv in H as [H | (x & _ & H)].
  { apply getitem_Raise in H as [-> H]. eexists. split; [reflexivity |]. split; [rewrite !elem_of_cons; tauto | exact H]. }
  apply bind_Raise_inv in H as [H | (y & _ & H)]; [| discriminate].
  apply getitem_Raise in H as [-> H]. eexists. split; [reflexivity |]. split; [rewrite !elem_of_cons; tauto | exact H].
Qed.

Lemma result_row_Raise dataset item e :
  result_row dataset item = Raise e ->
  exists k, e = KeyError k /\ k ∈ row_fields /\ item.2 !! k = None.
Proof.
  destruct item as [model data]. unfold result_row.
  destruct (categorize_model model) as [[family company] is_thinking]. cbn [snd].
  intros H.
  apply bind_Raise_inv in H as [H | (x & _ & H)].
  { apply getitem_Raise in H as [-> H]. eexists. split; [reflexivity |].
    split; [unfold row_fields; rewrite !elem_of_cons; tauto | exact H]. }
  apply bind_Raise_inv in H as [H | (y & _ & H)].
  { apply getitem_Raise in H as [-> H]. eexists. split; [reflexivity |].
    split; [unfold row_fields; rewrite !elem_of_cons; tauto | exact H]. }
  apply bind_Raise_inv in H as [H | (z & _ & H)].
  { now apply get_total_accuracy_Raise. }
  apply bind_Raise_inv in H as [H | (w & _ & H)]; [| discriminate].
  apply getitem_Raise in H as [-> H]. eexists. split; [reflexivity |].
  split; [unfold row_fields; rewrite !elem_of_cons; tauto | exact H].
Qed.

Lemma result_rows_complete dataset d rows :
  Forall2 (fun item r => result_row dataset item = Ok r) d rows ->
  Forall (fun item => complete_record item.2) d.
Proof.
  induction 1 as [|[model data] r d rows Hr _ IH]; [constructor |].
  constructor; [| exact IH]. apply (result_row_succeeds dataset model). eauto.
Qed.

(** Complete records are all the loop needs. *)
Lemma results_of_complete eval_data sf ca :
  eval_data !! "sf" = Some sf -> eval_data !! "ca" = Some ca ->
  Forall (fun item => complete_record item.2) (sf ++ ca)%list ->
  exists df, results eval_data = Ok df.
Proof.
  intros Hsf Hca Hall. apply Forall_app in Hall as [Hall_sf Hall_ca].
  assert (Hrows : forall dataset d,
             Forall (fun item => complete_record item.2) d ->
             exists rows, for_each (result_row dataset) d = Ok rows).
  { intros dataset d Hd. apply for_each_succeeds.
    eapply Forall_impl; [exact Hd |]. intros [model data] Hc.
    now apply result_row_succeeds. }
  destruct (Hrows "sf" sf Hall_sf) as [rsf Hrsf].
  destruct (Hrows "ca" ca Hall_ca) as [rca Hrca].
  exists (rsf ++ rca)%list. apply results_Ok.
  exists sf, ca, rsf, rca. repeat split; auto; now apply for_each_Ok.
Qed.

(** X10. The flattening loop returns a table exactly when the data has
    both datasets and every record has exactAccuracy, mostlyAccuracy and
    totalSamples; when it stops, it stops on a [KeyError] whose key is a
    dataset name or one of these three fields. *)
Theorem results_needs_complete_records
    (eval_data : gmap string (pydict (gmap string float))) :
  ((exists df, results eval_data = Ok df) <->
   exists sf ca,
     eval_data !! "sf" = Some sf /\ eval_data !! "ca" = Some ca
     /\ Forall (fun item => complete_record item.2) (sf ++ ca)%list)
  /\ (forall e, results eval_data = Raise e ->
        exists k, e = KeyError k /\ k ∈ (datasets ++ row_fields)%list).
Proof.
  split.
  - split.
    + intros [df H]. apply results_Ok in H
        as (sf & ca & rsf & rca & Hsf & Hca & Fsf & Fca & _).
      exists sf, ca. split; [exact Hsf |]. split; [exact Hca |].
      apply Forall_app. split; eapply result_rows_complete; eassumption.
    + intros (sf & ca & Hsf & Hca & Hall). now apply (results_of_complete _ sf ca).
  - intros e H. unfold results in H.
    apply bind_Raise_inv in H as [H | (rows & _ & H)]; [| discriminate].
    apply for_each_Raise in H as (dataset & Hin & H). unfold dataset_rows in H.
    apply bind_Raise_inv in H as [H | (d & _ & H)].
    + apply getitem_Raise in H as [-> _]. exists dataset. split; [reflexivity |].
      apply elem_of_app. now left.
    + apply for_each_Raise in H as (item & _ & H).
      apply result_row_Raise in H as (k & -> & Hk & _).
      exists k. split; [reflexivity |]. apply elem_of_app. now right.
Qed.

Lemma token_row_after_result_row dataset item r :
  result_row dataset item = Ok r ->
  exists ts, token_row dataset item = Ok ts /\ forall t, t ∈ ts -> agree r t.
Proof.
  destruct item as [model data]. intros Hr.
  apply result_row_Ok in Hr as (e & m & ts & He & Hm & Hts & ->).
  destruct (data !! "avgOutputTokens") as [tok|] eqn:Et.
  - eexists. split.
    + apply token_row_Ok. right. exists tok, e, m. eauto.
    + intros t Ht. apply list_elem_of_singleton in Ht as ->. repeat split.
  - exists []. split.
    + apply token_row_Ok. now left.
    + intros t Ht. inversion Ht.
Qed.

Lemma token_rows_after_result_rows dataset d rows :
  Forall2 (fun item r => result_row dataset item = Ok r) d rows ->
  exists tss,
    Forall2 (fun item ts => token_row dataset item = Ok ts) d tss
    /\ forall t, t ∈ concat tss -> exists r, r ∈ rows /\ agree r t.
Proof.
  induction 1 as [|item r d rows Hr _ (tss & Htss & Hagree)].
  - exists []. split; [constructor |]. intros t Ht. inversion Ht.
  - destruct (token_row_after_result_row _ _ _ Hr) as (ts & Hts & Hts_agree).
    exists (ts :: tss). split; [now constructor |].
    intros t Ht. cbn [concat] in Ht. apply elem_of_app in Ht as [Ht | Ht].
    + exists r. split; [left | auto].
    + destruct (Hagree t Ht) as (r' & Hr' & Ha). exists r'. split; [now right | exact Ha].
Qed.

(** X11. Where the flattening loop returned a table, the token loop
    returns too, and each of its rows describes a record of the table:
    same model, dataset, family, thinking flag and total accuracy. *)
Theorem token_data_after_results eval_data df :
  results eval_data = Ok df ->
  exists rows,
    token_data eval_data = Ok rows
    /\ forall t, t ∈ rows -> exists r, r ∈ df /\ agree r t.
Proof.
  intros H. apply results_Ok in H
    as (sf & ca & rsf & rca & Hsf & Hca & Fsf & Fca & ->).
  destruct (token_rows_after_result_rows _ _ _ Fsf) as (tsf & Htsf & Asf).
  destruct (token_rows_after_result_rows _ _ _ Fca) as (tca & Htca & Aca).
  exists (concat tsf ++ concat tca)%list. split.
  - apply token_data_Ok. exists sf, ca, tsf, tca. auto.
  - intros t Ht. apply elem_of_app in Ht as [Ht | Ht].
    + destruct (Asf t Ht) as (r & Hr & Ha). exists r. split; [| exact Ha].
      apply elem_of_app. now left.
    + destruct (Aca t Ht) as (r & Hr & Ha). exists r. split; [| exact Ha].
      apply elem_of_app. now right.
Qed.

Lemma token_data_after_results_witness :
  exists eval_data df,
    merge example_loaded = Ok eval_data
    /\ results eval_data = Ok df
    /\ exists rows,
         token_data eval_data = Ok rows
         /\ forall t, t ∈ rows -> exists r, r ∈ df /\ agree r t.
Proof.
  eexists. eexists. split; [reflexivity |]. split; [reflexivity |].
  apply token_data_after_results. reflexivity.
Defined.

(** ** The whole script on a well-formed file *)

Lemma dict_set_elem_of {V : Type} (k : string) (v : V) (d : pydict V) x :
  x ∈ dict_set k v d -> x = (k, v) \/ x ∈ d.
Proof.
  induction d as [|[k' v'] d IH]; cbn [dict_set].
  - intros H. apply list_elem_of_singleton in H. now left.
  - destruct (String.eqb k k').
    + intros H. apply elem_of_cons in H as [-> | H]; [now left | right; now right].
    + intros H. apply elem_of_cons in H as [-> | H]; [right; left |].
      destruct (IH H) as [-> | H']; [now left | right; now right].
Qed.

(** An update adds nothing but items of the block. *)
Lemma dict_update_elem_of {V : Type} (d t : pydict V) x :
  x ∈ dict_update d t -> x ∈ d \/ x ∈ t.
Proof.
  unfold dict_update. revert d. induction t as [|[k v] t IH]; intros d; cbn [fold_left].
  - now left.
  - intros H. destruct (IH _ H) as [H' | H']; [| right; now right].
    cbn [fst snd] in H'. apply dict_set_elem_of in H' as [-> | H']; [right; left | now left].
Qed.

Lemma thinking_valid dataset t :
  thinking_results !! dataset = Some t -> Forall (fun item => valid_record item.2) t.
Proof.
  assert (Hsf : Forall (fun item => valid_record item.2) thinking_sf)
    by (repeat constructor; eexists _, _, _; repeat split; reflexivity).
  assert (Hca : Forall (fun item => valid_record item.2) thinking_ca)
    by (repeat constructor; eexists _, _, _; repeat split; reflexivity).
  intros H.
  destruct (decide (dataset = "sf")) as [->|Hnsf].
  { rewrite thinking_results_sf in H. now injection H as <-. }
  destruct (decide (dataset = "ca")) as [->|Hnca].
  { rewrite thinking_results_ca in H. now injection H as <-. }
  unfold thinking_results in H.
  rewrite lookup_insert_ne, lookup_singleton_ne in H by congruence. discriminate.
Qed.

Lemma valid_record_complete data : valid_record data -> complete_record data.
Proof. intros (e & m & ts & He & Hm & Hts & _). unfold complete_record. eauto. Qed.

Lemma valid_rows_numeric dataset d rows :
  Forall (fun item => valid_record item.2) d ->
  Forall2 (fun item r => result_row dataset item = Ok r) d rows ->
  numeric rows.
Proof.
  intros Hd HF. unfold numeric. induction HF as [|[model data] r d rows Hr _ IH].
  - constructor.
  - apply Forall_cons in Hd as [(e & m & ts & He & Hm & _ & Hnum) Hd].
    constructor; [| now apply IH].
    apply result_row_Ok in Hr as (e' & m' & ts' & He' & Hm' & _ & ->).
    cbn [snd] in He, Hm, Hnum. rewrite He in He'. rewrite Hm in Hm'. injection He' as <-. injection Hm' as <-.
    exact Hnum.
Qed.

(** X12. On a loaded file with both datasets whose records all have the
    three row fields and a total accuracy that is a number, the script
    runs through: merge, table, both group-best passes, the improvement
    pass and the token pass all return, and the table is not empty and
    holds numbers only. *)
Theorem analysis_succeeds (loaded : gmap string (pydict (gmap string float))) :
  well_formed loaded ->
  exists report,
    analysis loaded = Ok report
    /\ numeric (Report.df report)
    /\ Report.df report <> [].
Proof.
  intros (sf & ca & Hsf & Hca & Hvalid). apply Forall_app in Hvalid as [Vsf Vca].
  assert (Hmerge := merge_spec loaded). rewrite Hsf, Hca in Hmerge.
  set (eval_data := <["ca" := dict_update ca thinking_ca]>
                      (<["sf" := dict_update sf thinking_sf]> loaded)) in *.
  assert (Esf : eval_data !! "sf" = Some (dict_update sf thinking_sf))
    by (unfold eval_data; rewrite lookup_insert_ne by discriminate; apply lookup_insert_eq).
  assert (Eca : eval_data !! "ca" = Some (dict_update ca thinking_ca))
    by apply lookup_insert_eq.
  assert (Msf : Forall (fun item => valid_record item.2) (dict_update sf thinking_sf)).
  { apply Forall_forall. intros x Hx. apply dict_update_elem_of in Hx as [Hx | Hx].
    - rewrite Forall_forall in Vsf. auto.
    - pose proof (thinking_valid "sf" _ thinking_results_sf) as Ht.
      rewrite Forall_forall in Ht. auto. }
  assert (Mca : Forall (fun item => valid_record item.2) (dict_update ca thinking_ca)).
  { apply Forall_forall. intros x Hx. apply dict_update_elem_of in Hx as [Hx | Hx].
    - rewrite Forall_forall in Vca. auto.
    - pose proof (thinking_valid "ca" _ thinking_results_ca) as Ht.
      rewrite Forall_forall in Ht. auto. }
  destruct (results_of_complete eval_data _ _ Esf Eca) as [df Hdf].
  { apply Forall_app. split.
    - eapply Forall_impl; [exact Msf |]. intros x. apply valid_record_complete.
    - eapply Forall_impl; [exact Mca |]. intros x. apply valid_record_complete. }
  pose proof Hdf as Hrows. apply results_Ok in Hrows
    as (sf' & ca' & rsf & rca & Hsf' & Hca' & Fsf & Fca & Edf).
  rewrite Esf in Hsf'. rewrite Eca in Hca'. injection Hsf' as <-. injection Hca' as <-.
  assert (Hnum : numeric df).
  { rewrite Edf. unfold numeric. apply Forall_app. split.
    - exact (valid_rows_numeric _ _ _ Msf Fsf).
    - exact (valid_rows_numeric _ _ _ Mca Fca). }
  assert (Hne : df <> []).
  { assert (Hget : dict_get "claude-opus-4-20250514--thinking" (dict_update sf thinking_sf)
                   = Some (metrics 50 8 3 0.16 0.06 0.22))
      by (rewrite dict_get_update; reflexivity).
    assert (Hin : "sf" ∈ datasets) by (unfold datasets; left).
    destruct (results_select _ _ _ _ _ _ Hdf Hin Esf Hget) as (r & Hhead & _).
    intros ->. discriminate. }
  destruct (group_best_spec Row.family df Hnum Hne) as (fb & Hfb & _).
  destruct (thinking_improvements_spec df Hne) as (ti & Hti & _).
  destruct (group_best_spec Row.company df Hnum Hne) as (cb & Hcb & _).
  destruct (token_rows_after_result_rows _ _ _ Fsf) as (tsf & Htsf & _).
  destruct (token_rows_after_result_rows _ _ _ Fca) as (tca & Htca & _).
  assert (Htd : token_data eval_data = Ok (concat tsf ++ concat tca)%list)
    by (apply token_data_Ok; exists (dict_update sf thinking_sf),
          (dict_update ca thinking_ca), tsf, tca; auto).
  eexists. split; [| split].
  - unfold analysis, family_best, company_best.
    rewrite Hmerge. cbn [mbind result_bind].
    rewrite Hdf. cbn [mbind result_bind]. rewrite Hfb. cbn [mbind result_bind].
    rewrite Hti. cbn [mbind result_bind]. rewrite Hcb. cbn [mbind result_bind].
    rewrite Htd. reflexivity.
  - exact Hnum.
  - exact Hne.
Qed.

Lemma example_well_formed : well_formed example_loaded.
Proof.
  eexists _, _. split; [reflexivity |]. split; [reflexivity |].
  repeat constructor; eexists _, _, _; repeat split; reflexivity.
Qed.

Lemma analysis_succeeds_witness :
  well_formed example_loaded
  /\ exists report,
       analysis example_loaded = Ok report
       /\ numeric (Report.df report)
       /\ Report.df report <> [].
Proof.
  split; [exact example_well_formed |].
  exact (analysis_succeeds example_loaded example_well_formed).
Defined.

Lemma dict_update_NoDup {V : Type} (d t : pydict V) :
  NoDup d.*1 -> NoDup t.*1 -> NoDup (dict_update d t).*1.
Proof.
  intros Hd Ht. rewrite dict_update_keys by assumption.
  apply NoDup_app. split; [exact Hd |]. split; [| now apply NoDup_filter].
  intros k Hk Hf. apply list_elem_of_filter in Hf as [Hn _]. contradiction.
Qed.

Lemma thinking_no_tokens (block : pydict (gmap string float)) :
  block = thinking_sf \/ block = thinking_ca ->
  forall m data, dict_get m block = Some data -> data !! "avgOutputTokens" = None.
Proof.
  intros [-> | ->] m data; cbn [dict_get thinking_sf thinking_ca];
    repeat (destruct (String.eqb m _); [intros [= <-]; reflexivity |]);
    discriminate.
Qed.

(** The rows of the token table for one merged dataset are not those of
    the supplemental models. *)
Lemma merged_token_rows dataset d block tss r :
  block = thinking_sf \/ block = thinking_ca ->
  NoDup d.*1 ->
  Forall2 (fun item rs => token_row dataset item = Ok rs) (dict_update d block) tss ->
  r ∈ concat tss ->
  Tok.model r ∉ block.*1.
Proof.
  intros Hblock Hd HF Hr Hin.
  assert (Hnd : NoDup block.*1)
    by (destruct Hblock as [-> | ->]; [apply thinking_sf_NoDup | apply thinking_ca_NoDup]).
  destruct (token_rows_elem _ _ _ _ HF Hr) as (data & t & e & m & Hitem & _ & Ht & _).
  apply (dict_get_NoDup _ _ _ (dict_update_NoDup d block Hd Hnd)) in Hitem.
  rewrite dict_get_update, dict_get_reverse in Hitem by assumption.
  destruct (dict_get (Tok.model r) block) as [data'|] eqn:E.
  - injection Hitem as ->. rewrite (thinking_no_tokens block Hblock _ _ E) in Ht. discriminate.
  - apply dict_get_None in E. contradiction.
Qed.

(** X22. The records of the supplemental block carry no avgOutputTokens
    and replace whatever the loaded file held under their names, so none
    of the three supplemental thinking models has a row in the token
    table. *)
Theorem supplemental_models_have_no_tokens loaded eval_data sf ca token_df :
  loaded !! "sf" = Some sf -> loaded !! "ca" = Some ca ->
  NoDup sf.*1 -> NoDup ca.*1 ->
  merge loaded = Ok eval_data ->
  token_data eval_data = Ok token_df ->
  forall r, r ∈ token_df -> Tok.model r ∉ thinking_sf.*1.
Proof.
  intros Hsf Hca Hnsf Hnca Hm Htd r Hr.
  destruct (merge_Ok _ _ Hm) as (sf' & ca' & Hsf' & Hca' & Esf & Eca).
  rewrite Hsf in Hsf'. injection Hsf' as <-. rewrite Hca in Hca'. injection Hca' as <-.
  apply token_data_Ok in Htd as (sf' & ca' & tsf & tca & Esf' & Eca' & Fsf & Fca & ->).
  rewrite Esf in Esf'. injection Esf' as <-. rewrite Eca in Eca'. injection Eca' as <-.
  apply elem_of_app in Hr as [Hr | Hr].
  - exact (merged_token_rows "sf" sf thinking_sf tsf r (or_introl eq_refl) Hnsf Fsf Hr).
  - change (thinking_sf.*1) with (thinking_ca.*1).
    exact (merged_token_rows "ca" ca thinking_ca tca r (or_intror eq_refl) Hnca Fca Hr).
Qed.

Lemma supplemental_models_have_no_tokens_witness :
  exists eval_data token_df,
    merge example_loaded = Ok eval_data
    /\ token_data eval_data = Ok token_df
    /\ forall r, r ∈ token_df -> Tok.model r ∉ thinking_sf.*1.
Proof.
  assert (Hsf : { sf | example_loaded !! "sf" = Some sf /\ NoDup sf.*1 }).
  { eexists. split; [reflexivity |]. repeat constructor; rewrite ?elem_of_cons, ?elem_of_nil;
      intros H; repeat destruct H as [H | H]; discriminate || exact H. }
  assert (Hca : { ca | example_loaded !! "ca" = Some ca /\ NoDup ca.*1 }).
  { eexists. split; [reflexivity |]. repeat constructor; rewrite ?elem_of_cons, ?elem_of_nil;
      intros H; repeat destruct H as [H | H]; discriminate || exact H. }
  destruct Hsf as (sf & Esf & Hsf), Hca as (ca & Eca & Hca).
  eexists. eexists. split; [reflexivity |]. split; [reflexivity |].
  exact (supplemental_models_have_no_tokens example_loaded _ sf ca _
           Esf Eca Hsf Hca eq_refl eq_refl).
Defined.

(** ** More on the thinking improvements *)

Lemma improvement_of_rows df dataset base_model :
  improvement_of df dataset base_model = Ok (improvement_rows df dataset base_model).
Proof.
  rewrite improvement_of_spec. unfold improvement_rows.
  destruct (select df dataset base_model); [reflexivity |].
  destruct (select df dataset (base_model ++ "--thinking")); reflexivity.
Qed.

(** The pass as a list expression. *)
Lemma thinking_improvements_rows df rows :
  thinking_improvements df = Ok rows ->
  rows = concat (map (fun dataset =>
                        concat (map (improvement_rows df dataset)
                                    (models_in_dataset df dataset)))
                     datasets).
Proof.
  unfold thinking_improvements. intros H.
  apply bind_Ok in H as (u & _ & H).
  rewrite (for_each_pure _ (fun dataset =>
             concat (map (improvement_rows df dataset) (models_in_dataset df dataset)))) in H.
  - cbn [mbind result_bind] in H. now injection H as <-.
  - intros dataset.
    rewrite (for_each_pure _ (improvement_rows df dataset)) by apply improvement_of_rows.
    reflexivity.
Qed.

Lemma improvement_rows_elem_of df dataset base_model r :
  r ∈ improvement_rows df dataset base_model ->
  exists b t,
    head (select df dataset base_model) = Some b
    /\ head (select df dataset (base_model ++ "--thinking")) = Some t
    /\ r = Imp.mk dataset base_model (Row.total_accuracy b) (Row.total_accuracy t)
                  (Row.total_accuracy t - Row.total_accuracy b)%float
                  (if (0 <? Row.total_accuracy b)%float
                   then ((Row.total_accuracy t - Row.total_accuracy b) / Row.total_accuracy b)%float
                   else 0%float).
Proof.
  unfold improvement_rows.
  destruct (select df dataset base_model) as [|b ?]; [intros H; inversion H |].
  destruct (select df dataset (base_model ++ "--thinking")) as [|t ?]; [intros H; inversion H |].
  intros H. apply list_elem_of_singleton in H. exists b, t. auto.
Qed.

Lemma thinking_improvements_elem_of df rows r :
  thinking_improvements df = Ok rows ->
  (r ∈ rows <->
   exists dataset base_model,
     dataset ∈ datasets
     /\ base_model ∈ models_in_dataset df dataset
     /\ r ∈ improvement_rows df dataset base_model).
Proof.
  intros H. apply thinking_improvements_rows in H as ->.
  rewrite elem_of_concat. split.
  - intros (l & Hl & Hr). apply elem_of_map in Hl as (dataset & -> & Hd).
    apply elem_of_concat in Hr as (rs & Hrs & Hr).
    apply elem_of_map in Hrs as (base_model & -> & Hb). eauto.
  - intros (dataset & base_model & Hd & Hb & Hr).
    eexists. split; [apply elem_of_map; eauto |].
    apply elem_of_concat. eexists. split; [apply elem_of_map; eauto | exact Hr].
Qed.

(** X14. In every row of the improvement table the improvement is
    positive exactly when the thinking accuracy is strictly above the
    base accuracy (the floating-point subtraction never turns a strict
    difference into 0 or into the other sign). *)
Theorem improvement_sign df rows :
  thinking_improvements df = Ok rows ->
  forall r, r ∈ rows ->
    (0 <? Imp.improvement r)%float
    = (Imp.base_accuracy r <? Imp.thinking_accuracy r)%float.
Proof.
  intros H r Hr. apply (thinking_improvements_elem_of df rows r H) in Hr
    as (dataset & base_model & _ & _ & Hr).
  apply improvement_rows_elem_of in Hr as (b & t & _ & _ & ->).
  cbn. apply float_sub_pos.
Qed.

Lemma improvement_sign_witness :
  exists rows,
    thinking_improvements example_df = Ok rows
    /\ forall r, r ∈ rows ->
         (0 <? Imp.improvement r)%float
         = (Imp.base_accuracy r <? Imp.thinking_accuracy r)%float.
Proof.
  eexists. split; [reflexivity |].
  exact (improvement_sign example_df _ eq_refl).
Defined.

(** X15. No pair is missed: when a dataset of the table has a row for a
    marker-free model name and a row for that name followed by
    --thinking, the improvement table has a row for the pair, built from
    the first row of each. *)
Theorem improvement_pairs_complete df rows dataset m b t :
  thinking_improvements df = Ok rows ->
  dataset ∈ datasets ->
  ~ Str.Substring "--thinking" m ->
  head (select df dataset m) = Some b ->
  head (select df dataset (m ++ "--thinking")) = Some t ->
  exists r,
    r ∈ rows
    /\ Imp.dataset r = dataset /\ Imp.base_model r = m
    /\ Imp.base_accuracy r = Row.total_accuracy b
    /\ Imp.thinking_accuracy r = Row.total_accuracy t.
Proof.
  intros H Hd Hno Hb Ht.
  eexists. split.
  - apply (thinking_improvements_elem_of df rows _ H).
    exists dataset, m. split; [exact Hd |]. split.
    + apply head_elem_of, select_elem_of in Hb as (Hin & Hds & Hm).
      rewrite <- Hm at 1. rewrite <- (remove_aux_id "--thinking" (Row.model b)) by now rewrite Hm.
      now apply elem_of_models_in_dataset.
    + unfold improvement_rows.
      apply head_select_cons in Hb as [? ->]. apply head_select_cons in Ht as [? ->].
      left.
  - repeat split.
Qed.

Lemma improvement_pairs_complete_witness :
  exists rows r,
    thinking_improvements example_df = Ok rows
    /\ r ∈ rows
    /\ Imp.dataset r = "ca" /\ Imp.base_model r = "claude-opus-4-20250514".
Proof.
  eexists.
  destruct (improvement_pairs_complete example_df _ "ca" "claude-opus-4-20250514"
              (Row.mk "claude-opus-4-20250514" "ca" "claude" "anthropic" false 0.5 0.0 0.5 50)
              (Row.mk "claude-opus-4-20250514--thinking" "ca" "claude" "anthropic" true
                      0.52 0.02 0.54 50)
              eq_refl) as (r & Hr & Hd & Hm & _).
  - unfold datasets. right. left.
  - apply contains_false. reflexivity.
  - reflexivity.
  - reflexivity.
  - exists r. split; [reflexivity |]. auto.
Defined.

Lemma concat_singletons_NoDup {A R K : Type} (f : A -> list R) (key : R -> K)
    (tag : A -> K) (l : list A) :
  (forall x y, tag x = tag y -> x = y) ->
  (forall x r, r ∈ f x -> f x = [r] /\ key r = tag x) ->
  NoDup l -> NoDup (map key (concat (map f l))).
Proof.
  intros Hinj Hf. induction 1 as [|x l Hx Hl IH]; cbn [map concat]; [constructor |].
  rewrite map_app. apply NoDup_app. split; [| split; [| exact IH]].
  - destruct (f x) as [|r rs] eqn:E; [constructor |].
    destruct (Hf x r) as [E' _]; [rewrite E; left |].
    rewrite E in E'. injection E' as ->. cbn. apply NoDup_singleton.
  - intros k Hk1 Hk2.
    apply elem_of_map in Hk1 as (r & -> & Hr).
    apply elem_of_map in Hk2 as (r' & Hkk & Hr').
    apply elem_of_concat in Hr' as (rs & Hrs & Hr').
    apply elem_of_map in Hrs as (y & -> & Hy).
    destruct (Hf x r Hr) as [_ Hkx]. destruct (Hf y r' Hr') as [_ Hky].
    assert (x = y) by (apply Hinj; congruence). subst y. contradiction.
Qed.

Lemma improvement_rows_one df dataset base_model r :
  r ∈ improvement_rows df dataset base_model ->
  improvement_rows df dataset base_model = [r]
  /\ (Imp.dataset r, Imp.base_model r) = (dataset, base_model).
Proof.
  unfold improvement_rows.
  destruct (select df dataset base_model) as [|b ?]; [intros H; inversion H |].
  destruct (select df dataset (base_model ++ "--thinking")) as [|t ?]; [intros H; inversion H |].
  intros H. apply list_elem_of_singleton in H as ->. split; reflexivity.
Qed.

Lemma models_in_dataset_NoDup df dataset : NoDup (models_in_dataset df dataset).
Proof. apply NoDup_remove_dups. Qed.

Lemma dataset_improvements_NoDup df dataset :
  NoDup (map (fun r => (Imp.dataset r, Imp.base_model r))
             (concat (map (improvement_rows df dataset) (models_in_dataset df dataset)))).
Proof.
  apply (concat_singletons_NoDup _ _ (fun m => (dataset, m))).
  - intros x y [= ->]. reflexivity.
  - intros m r. apply improvement_rows_one.
  - apply models_in_dataset_NoDup.
Qed.

Lemma dataset_improvements_dataset df dataset k :
  k ∈ map (fun r => (Imp.dataset r, Imp.base_model r))
          (concat (map (improvement_rows df dataset) (models_in_dataset df dataset))) ->
  k.1 = dataset.
Proof.
  intros H. apply elem_of_map in H as (r & -> & Hr).
  apply elem_of_concat in Hr as (rs & Hrs & Hr).
  apply elem_of_map in Hrs as (m & -> & _).
  apply improvement_rows_one in Hr as [_ [= -> _]]. reflexivity.
Qed.

(** X16. The improvement table has at most one row for a dataset and a
    base model, even where the table has several rows for them. *)
Theorem improvement_one_row_per_pair (df : list Row.t) (rows : list Imp.t) :
  thinking_improvements df = Ok rows ->
  NoDup (map (fun r => (Imp.dataset r, Imp.base_model r)) rows).
Proof.
  intros H. apply thinking_improvements_rows in H as ->.
  unfold datasets. cbn [map concat]. rewrite app_nil_r, map_app.
  apply NoDup_app. split; [apply dataset_improvements_NoDup |].
  split; [| apply dataset_improvements_NoDup].
  intros k H1 H2.
  apply dataset_improvements_dataset in H1, H2. congruence.
Qed.

Lemma improvement_one_row_per_pair_witness :
  exists rows,
    thinking_improvements example_df = Ok rows
    /\ NoDup (map (fun r => (Imp.dataset r, Imp.base_model r)) rows).
Proof.
  eexists. split; [reflexivity |].
  exact (improvement_one_row_per_pair example_df _ eq_refl).
Defined.

(** ** The comparison of the two datasets *)

Lemma elem_of_dataset_models df dataset m :
  m ∈ dataset_models df dataset <->
  exists r, r ∈ df /\ Row.dataset r = dataset /\ Row.model r = m.
Proof.
  unfold dataset_models. rewrite elem_of_remove_dups, elem_of_map. split.
  - intros (r & -> & Hr). apply list_elem_of_filter in Hr as [Hd Hr].
    apply Is_true_true, String.eqb_eq in Hd. eauto.
  - intros (r & Hr & Hd & Hm). exists r. split; [auto |].
    apply list_elem_of_filter. split; [| exact Hr].
    rewrite Hd, String.eqb_refl. exact I.
Qed.

Lemma elem_of_common_models df m :
  m ∈ common_models df <->
  exists a b, a ∈ df /\ b ∈ df
              /\ Row.dataset a = "sf" /\ Row.dataset b = "ca"
              /\ Row.model a = m /\ Row.model b = m.
Proof.
  unfold common_models. rewrite list_elem_of_filter, !elem_of_dataset_models. split.
  - intros [(b & Hb & Hdb & Hmb) (a & Ha & Hda & Hma)]. exists a, b. auto 10.
  - intros (a & b & Ha & Hb & Hda & Hdb & Hma & Hmb). split; eauto.
Qed.

Lemma common_models_NoDup df : NoDup (common_models df).
Proof. apply NoDup_filter, NoDup_remove_dups. Qed.

Lemma select_hit df dataset m r :
  r ∈ df -> Row.dataset r = dataset -> Row.model r = m ->
  exists r' rest, select df dataset m = r' :: rest.
Proof.
  intros Hr Hd Hm.
  assert (H : r ∈ select df dataset m).
  { unfold select. apply list_elem_of_filter. split; [| exact Hr].
    rewrite Hd, Hm, !String.eqb_refl. exact I. }
  destruct (select df dataset m) as [|r' rest]; [inversion H | eauto].
Qed.

(** The loop body on a model of both datasets. *)
Lemma comparison_row_common df m :
  m ∈ common_models df ->
  exists a b,
    head (select df "sf" m) = Some a /\ head (select df "ca" m) = Some b
    /\ comparison_row df m =
       Done (Cmp.mk m (Row.exact_accuracy a) (Row.exact_accuracy b)
                    (Row.total_accuracy a) (Row.total_accuracy b)
                    (Row.exact_accuracy b - Row.exact_accuracy a)
                    (Row.total_accuracy b - Row.total_accuracy a)).
Proof.
  intros H. apply elem_of_common_models in H
    as (a & b & Ha & Hb & Hda & Hdb & Hma & Hmb).
  destruct (select_hit df "sf" m a Ha Hda Hma) as (a' & ra & Ea).
  destruct (select_hit df "ca" m b Hb Hdb Hmb) as (b' & rb & Eb).
  exists a', b'. unfold comparison_row. rewrite Ea, Eb. auto.
Qed.

Lemma for_models_Done {A B : Type} (body : A -> outcome B) (P : A -> B -> Prop) (l : list A) :
  (forall a, a ∈ l -> exists b, body a = Done b /\ P a b) ->
  exists bs, for_models body l = Done bs /\ Forall2 P l bs.
Proof.
  induction l as [|a l IH]; intros H.
  - exists []. split; [reflexivity | constructor].
  - destruct (H a) as (b & Hb & HP); [left |].
    destruct IH as (bs & Hbs & HF); [intros a' Ha'; apply H; now right |].
    exists (b :: bs). cbn [for_models]. rewrite Hb. cbn. rewrite Hbs. cbn.
    split; [reflexivity | now constructor].
Qed.

Lemma comparison_spec df :
  comparison df =
  match df with
  | [] => Stop (Builtin (KeyError "dataset"))
  | _ :: _ =>
      match common_models df with
      | [] => Stop (NameError "comparison_df")
      | _ :: _ => comparison df
      end
  end.
Proof.
  destruct df as [|r df]; [reflexivity |].
  unfold comparison. cbn [column lift mbind outcome_bind].
  destruct (common_models (r :: df)); reflexivity.
Qed.

Lemma comparison_Done df :
  common_models df <> [] ->
  exists rows,
    comparison df = Done rows /\ Forall2 (compares df) (common_models df) rows.
Proof.
  intros Hne.
  assert (Hdf : df <> []).
  { intros ->. apply Hne. reflexivity. }
  destruct (for_models_Done (comparison_row df) (compares df) (common_models df))
    as (rows & Hrows & HF).
  { intros m Hm. destruct (comparison_row_common df m Hm) as (a & b & Ha & Hb & E).
    eexists. split; [exact E |]. exists a, b. auto. }
  exists rows. split; [| exact HF].
  unfold comparison. destruct df as [|r df]; [contradiction |].
  cbn [column lift mbind outcome_bind].
  destruct (common_models (r :: df)); [contradiction | exact Hrows].
Qed.

Lemma Forall2_compares_models df ms rows :
  Forall2 (compares df) ms rows -> map Cmp.model rows = ms.
Proof.
  induction 1 as [|m r ms rows (a & b & _ & _ & ->) HF IH]; [reflexivity |].
  cbn. now rewrite IH.
Qed.

Lemma Forall2_elem_of_r {A B : Type} (P : A -> B -> Prop) l k b :
  Forall2 P l k -> b ∈ k -> exists a, a ∈ l /\ P a b.
Proof.
  induction 1 as [|a' b' l k HP HF IH]; intros Hb; [inversion Hb |].
  apply elem_of_cons in Hb as [-> | Hb].
  - exists a'. split; [left | exact HP].
  - destruct (IH Hb) as (a & Ha & HPa). exists a. split; [now right | exact HPa].
Qed.

(** X17. The dataset comparison, on any table: on the empty table it
    stops on [KeyError] 'dataset'; on a table with no model in both
    datasets it stops on [NameError], [comparison_df] being used after
    the block though never bound; otherwise it returns a table that is not empty, with
    one row for each model that has a row in sf and a row in ca, and no
    other. It never stops on [IndexError]: [iloc[0]] is only taken of a
    selection that has a row. *)
Theorem comparison_outcome (df : list Row.t) :
  match comparison df with
  | Stop e =>
      (e = Builtin (KeyError "dataset") /\ df = [])
      \/ (e = NameError "comparison_df" /\ df <> []
          /\ forall a b, a ∈ df -> b ∈ df ->
               Row.dataset a = "sf" -> Row.dataset b = "ca" ->
               Row.model a <> Row.model b)
  | Done rows =>
      rows <> []
      /\ NoDup (map Cmp.model rows)
      /\ forall m, m ∈ map Cmp.model rows <->
           exists a b, a ∈ df /\ b ∈ df
                       /\ Row.dataset a = "sf" /\ Row.dataset b = "ca"
                       /\ Row.model a = m /\ Row.model b = m
  end.
Proof.
  destruct df as [|r0 df]; [left; auto |].
  destruct (common_models (r0 :: df)) as [|m0 ms] eqn:E.
  - rewrite comparison_spec, E. right. split; [reflexivity |]. split; [discriminate |].
    intros a b Ha Hb Hda Hdb Hm.
    assert (H : Row.model a ∈ common_models (r0 :: df)).
    { apply elem_of_common_models. exists a, b. auto 10. }
    rewrite E in H. inversion H.
  - destruct (comparison_Done (r0 :: df)) as (rows & -> & HF); [rewrite E; discriminate |].
    pose proof (Forall2_compares_models _ _ _ HF) as Hms.
    split; [| split].
    + intros ->. rewrite E in HF. inversion HF.
    + rewrite Hms. apply common_models_NoDup.
    + intros m. rewrite Hms. apply elem_of_common_models.
Qed.

(** X18. A row of the comparison table is built from the first sf row
    and the first ca row of its model, and its difference columns are
    positive exactly when ca is strictly above sf, so the count of
    models performing better on CA counts those models. *)
Theorem comparison_diff_sign (df : list Row.t) (rows : list Cmp.t) (r : Cmp.t) :
  comparison df = Done rows -> r ∈ rows ->
  (exists a b,
      head (select df "sf" (Cmp.model r)) = Some a
      /\ head (select df "ca" (Cmp.model r)) = Some b
      /\ Cmp.sf_total r = Row.total_accuracy a
      /\ Cmp.ca_total r = Row.total_accuracy b)
  /\ (0 <? Cmp.total_diff r)%float = (Cmp.sf_total r <? Cmp.ca_total r)%float
  /\ (0 <? Cmp.exact_diff r)%float = (Cmp.sf_exact r <? Cmp.ca_exact r)%float.
Proof.
  intros H Hr.
  assert (Hne : common_models df <> []).
  { intros E. rewrite comparison_spec, E in H. destruct df; discriminate. }
  destruct (comparison_Done df Hne) as (rows' & H' & HF).
  rewrite H in H'. injection H' as <-.
  destruct (Forall2_elem_of_r _ _ _ _ HF Hr) as (m & _ & a & b & Ha & Hb & ->).
  cbn. split; [exists a, b; auto |]. split; apply float_sub_pos.
Qed.

Lemma comparison_diff_sign_witness :
  exists rows,
    comparison example_both = Done rows
    /\ forall r, r ∈ rows ->
         (0 <? Cmp.total_diff r)%float = (Cmp.sf_total r <? Cmp.ca_total r)%float.
Proof.
  eexists. split; [reflexivity |]. intros r Hr.
  exact (proj1 (proj2 (comparison_diff_sign example_both _ r eq_refl Hr))).
Defined.

Lemma thinking_sf_ca_keys : thinking_ca.*1 = thinking_sf.*1.
Proof. reflexivity. Qed.

Lemma thinking_get (block : pydict (gmap string float)) m :
  m ∈ block.*1 -> exists data, dict_get m (reverse block) = Some data.
Proof.
  intros H. destruct (dict_get m (reverse block)) as [data|] eqn:E; [eauto |].
  exfalso. revert E. generalize (reverse_involutive block).
  assert (Hr : m ∈ (reverse block).*1).
  { rewrite fmap_reverse. now apply elem_of_reverse. }
  intros _. induction (reverse block) as [|[k v] l IH]; [inversion Hr |].
  cbn [dict_get]. destruct (String.eqb_spec m k) as [->|Hne]; [discriminate |].
  apply IH. cbn in Hr. apply elem_of_cons in Hr as [-> | Hr]; [contradiction | exact Hr].
Qed.

(** X19. After the merge, the comparison always returns: the
    supplemental block gives both datasets the same three thinking
    models, so [comparison_df] is bound, and these three models are in
    the comparison table whatever the loaded file holds. *)
Theorem comparison_after_merge loaded eval_data df :
  merge loaded = Ok eval_data ->
  results eval_data = Ok df ->
  exists rows,
    comparison df = Done rows
    /\ forall m, m ∈ thinking_sf.*1 -> m ∈ map Cmp.model rows.
Proof.
  intros Hm Hres.
  destruct (merge_Ok _ _ Hm) as (sf & ca & _ & _ & Hsf & Hca).
  assert (Hcommon : forall m, m ∈ thinking_sf.*1 -> m ∈ common_models df).
  { intros m Hin.
    destruct (thinking_get thinking_sf m Hin) as (dsf & Esf).
    destruct (thinking_get thinking_ca m) as (dca & Eca);
      [now rewrite thinking_sf_ca_keys |].
    destruct (results_select eval_data df "sf" (dict_update sf thinking_sf) m dsf Hres)
      as (a & Ha & Hra).
    { left. } { exact Hsf. } { now rewrite dict_get_update, Esf. }
    destruct (results_select eval_data df "ca" (dict_update ca thinking_ca) m dca Hres)
      as (b & Hb & Hrb).
    { right; left. } { exact Hca. } { now rewrite dict_get_update, Eca. }
    apply head_elem_of, select_elem_of in Ha as (Ha & Hda & Hma).
    apply head_elem_of, select_elem_of in Hb as (Hb & Hdb & Hmb).
    apply elem_of_common_models. exists a, b. auto 10. }
  destruct (comparison_Done df) as (rows & Hrows & HF).
  { intros E. specialize (Hcommon "claude-opus-4-20250514--thinking").
    rewrite E in Hcommon. 
    assert (Hin : "claude-opus-4-20250514--thinking" ∈ thinking_sf.*1) by (right; left).
    specialize (Hcommon Hin). inversion Hcommon. }
  exists rows. split; [exact Hrows |].
  intros m Hin. rewrite (Forall2_compares_models _ _ _ HF). auto.
Qed.

Lemma comparison_after_merge_witness :
  exists eval_data df rows,
    merge example_loaded = Ok eval_data
    /\ results eval_data = Ok df
    /\ comparison df = Done rows
    /\ "claude-opus-4-20250514--thinking" ∈ map Cmp.model rows.
Proof.
  eexists. eexists.
  destruct (comparison_after_merge example_loaded _ _ eq_refl eq_refl) as (rows & Hrows & H).
  exists rows. split; [reflexivity |]. split; [reflexivity |]. split; [exact Hrows |].
  apply H. right. left.
Defined.

(** ** More on group-best *)

Lemma key_le_total : Total key_le.
Proof.
  intros [a1 a2] [b1 b2]. unfold key_le. cbn [fst snd].
  rewrite (String.eqb_sym b1 a1).
  destruct (String.eqb a1 b1).
  - destruct (String.leb_total a2 b2) as [-> | ->]; [left | right]; exact I.
  - destruct (String.leb_total a1 b1) as [-> | ->]; [left | right]; exact I.
Qed.

Lemma group_keys_Sorted key df : Sorted key_le (group_keys key df).
Proof. unfold group_keys. apply Sorted_merge_sort, key_le_total. Qed.

Lemma group_keys_NoDup key df : NoDup (group_keys key df).
Proof.
  unfold group_keys. rewrite merge_sort_Permutation. apply NoDup_remove_dups.
Qed.

Lemma first_number_max_elem_of key df b :
  first_number_max key df b -> b ∈ df /\ is_nan (Row.total_accuracy b) = false.
Proof.
  intros (df1 & df2 & -> & Hb & _). split; [| exact Hb].
  rewrite elem_of_app. right. left.
Qed.

(** X20. When a group-best pass returns, its rows are rows of the table,
    one for each (dataset, key) pair of the table and no pair twice,
    listed in the order of the sorted pairs; every row of the table has
    the best row of its group in the answer. *)
Theorem group_best_one_per_group (key : Row.t -> string) (df best : list Row.t) :
  group_best key df = Ok best ->
  Sorted key_le (map (fun b => (Row.dataset b, key b)) best)
  /\ NoDup (map (fun b => (Row.dataset b, key b)) best)
  /\ (forall b, b ∈ best -> b ∈ df)
  /\ (forall r, r ∈ df -> exists b, b ∈ best /\ same_group key r b).
Proof.
  intros H. destruct (group_best_among_numbers key df best H) as [Hkeys Hbest].
  rewrite Hkeys. split; [apply group_keys_Sorted |]. split; [apply group_keys_NoDup |].
  split.
  - intros b Hb. now apply (first_number_max_elem_of key), Hbest.
  - intros r Hr.
    assert (Hk : (Row.dataset r, key r) ∈ group_keys key df)
      by (apply elem_of_group_keys; eauto).
    rewrite <- Hkeys in Hk. apply elem_of_map in Hk as (b & [= Hd Hkey] & Hb).
    exists b. split; [exact Hb | split; assumption].
Qed.

Lemma group_best_one_per_group_witness :
  exists best,
    family_best example_df = Ok best
    /\ NoDup (map (fun b => (Row.dataset b, Row.family b)) best)
    /\ (forall r, r ∈ example_df -> exists b, b ∈ best /\ same_group Row.family r b).
Proof.
  eexists. split; [reflexivity |].
  destruct (group_best_one_per_group Row.family example_df _ eq_refl) as (_ & Hnd & _ & Hall).
  split; [exact Hnd | exact Hall].
Defined.

(** X21. A group-best pass returns exactly when the table is not empty
    and every group has a row whose total accuracy is a number. *)
Theorem group_best_succeeds_iff (key : Row.t -> string) (df : list Row.t) :
  (exists best, group_best key df = Ok best)
  <-> df <> []
      /\ forall r, r ∈ df ->
           exists r', r' ∈ df /\ same_group key r' r
                      /\ is_nan (Row.total_accuracy r') = false.
Proof.
  split.
  - intros [best H]. split.
    + unfold group_best in H. apply bind_Ok in H as (u & Hu & _).
      exact (column_nonempty _ _ _ Hu).
    + destruct (group_best_among_numbers key df best H) as [Hkeys Hbest].
      intros r Hr.
      assert (Hk : (Row.dataset r, key r) ∈ group_keys key df)
        by (apply elem_of_group_keys; eauto).
      rewrite <- Hkeys in Hk. apply elem_of_map in Hk as (b & [= Hd Hkey] & Hb).
      destruct (first_number_max_elem_of key df b (Hbest b Hb)) as [Hin Hnum].
      exists b. split; [exact Hin |]. split; [split; congruence | exact Hnum].
  - intros [Hne Hall]. unfold group_best. rewrite (column_Ok _ _ Hne). cbn.
    destruct (for_each_Forall2
                (fun k => match idxmax (group_values key df k) with
                          | Some i => loc df i
                          | None => Raise (ValueError "idxmax of an all-NA group")
                          end)
                (fun _ _ => True) (group_keys key df)) as (best & Hbest & _);
      [| eauto].
    intros k Hk. apply elem_of_group_keys in Hk as (r & Hr & ->).
    destruct (Hall r Hr) as (r' & Hr' & [Hd Hkey] & Hnum).
    destruct (idxmax (group_values key df (Row.dataset r, key r))) as [i|] eqn:E.
    + destruct (group_idxmax_Some key df _ i E) as (b & Hloc & _). eauto.
    + exfalso. unfold idxmax in E. apply idxmax_from_None in E as [_ HallNaN].
      assert (Hg : in_group key (Row.dataset r, key r) r' = true)
        by (apply in_group_true; auto).
      destruct (group_values_from_elem_of key 0 df _ r' Hr' Hg) as [j Hj].
      apply HallNaN in Hj. congruence.
Qed.

